(** * Session and conversation state manager: a shallow embedding

    The development follows [src/claude/session-manager.ts] (PathResolver and
    SessionManager) and the session-history module it imports (HistoryStore).

    Conventions of the embedding:
    - a JavaScript string is a [string]; one character stands for one code
      unit, which is all that [startsWith], [slice], [indexOf] and
      [substring] look at;
    - a JavaScript number that holds an integer (a chat id, a clock reading)
      is a [Z]; [JsNumber.isNumber] tells which integers a number can hold;
    - [undefined] in an optional position is [None];
    - the objects the two singletons own are the fields of [World], and every
      operation is a function from worlds to worlds, with its return value in
      front when it has one;
    - the machine is read through three section variables: the home
      directory, [fs.existsSync], and the successive readings of the clock.

    Part I holds the definitions, Part II the facts proved about them. *)

From Stdlib Require Import ZArith Ascii String List Lia Sorted Permutation.
From stdpp Require Import base option list gmap strings fin_maps.

Local Open Scope Z_scope.

(** * Part I: the model *)

(** ** JavaScript string primitives *)

Module JsString.

(** [s.startsWith(p)] *)
Fixpoint startsWith (p s : string) : bool :=
  match p, s with
  | EmptyString, _ => true
  | String a p', String b s' => if Ascii.eqb a b then startsWith p' s' else false
  | String _ _, EmptyString => false
  end.

(** [s.slice(n)] for [0 <= n]: what is left after the first [n] units. *)
Fixpoint slice (n : nat) (s : string) : string :=
  match n, s with
  | O, _ => s
  | S n', String _ s' => slice n' s'
  | S _, EmptyString => EmptyString
  end.

(** [s.substring(0, n)]: the first [n] units, or all of [s] when shorter. *)
Fixpoint substring0 (n : nat) (s : string) : string :=
  match n, s with
  | O, _ => EmptyString
  | S n', String a s' => String a (substring0 n' s')
  | S _, EmptyString => EmptyString
  end.

(** [s.indexOf(c)] for a one-unit needle; [None] is JavaScript's [-1]. *)
Fixpoint indexOf (c : ascii) (s : string) : option nat :=
  match s with
  | EmptyString => None
  | String a s' => if Ascii.eqb a c then Some O else option_map S (indexOf c s')
  end.

Definition slash : ascii := "/"%char.

(** The string from its first [c] on (that unit included), empty when it
    has none. Not a primitive: the specification's "remainder after the
    username segment". *)
Fixpoint fromFirst (c : ascii) (s : string) : string :=
  match s with
  | EmptyString => EmptyString
  | String a s' => if Ascii.eqb a c then s else fromFirst c s'
  end.

(** Truthiness of a string: only the empty one is falsy. *)
Definition truthy (s : string) : bool :=
  match s with EmptyString => false | String _ _ => true end.

Fixpoint dropSlashes (l : list ascii) : list ascii :=
  match l with
  | c :: l' => if Ascii.eqb c slash then dropSlashes l' else l
  | [] => []
  end.

Fixpoint untilSlash (l : list ascii) : list ascii :=
  match l with
  | c :: l' => if Ascii.eqb c slash then [] else c :: untilSlash l'
  | [] => []
  end.

(** [path.basename(p)] on a POSIX host: scanning from the end, the trailing
    separators are skipped and the units back to the previous separator are
    the result. *)
Definition basename (p : string) : string :=
  string_of_list_ascii
    (rev (untilSlash (dropSlashes (rev (list_ascii_of_string p))))).

End JsString.

(** ** JavaScript numbers that hold integers *)

Module JsNumber.

Definition digitChar (d : Z) : ascii := ascii_of_nat (48 + Z.to_nat d).

(** The decimal digits of [n >= 0], most significant first, put in front of
    [acc]; [fuel] bounds the number of digits. *)
Fixpoint digitsOnto (fuel : nat) (n : Z) (acc : string) : string :=
  match fuel with
  | O => acc
  | S fuel' =>
      let acc' := String (digitChar (n mod 10)) acc in
      if (n / 10 =? 0)%Z then acc' else digitsOnto fuel' (n / 10) acc'
  end.

Definition decimal (n : Z) : string :=
  digitsOnto (S (Z.to_nat (Z.log2 n))) n "".

(** The number of decimal digits of [n >= 0]. *)
Definition digitCount (n : Z) : nat := String.length (decimal n).

(** The number nearest to the integer [v] (ties to the even significand),
    for [|v| < 2^1024]: every integer below [2^53] is a number; above, a
    number has 53 significant bits. *)
Definition roundToDouble (v : Z) : Z :=
  let a := Z.abs v in
  if a <? 2 ^ 53 then v
  else
    let e := Z.log2 a - 52 in
    let q := a / 2 ^ e in
    let r := a mod 2 ^ e in
    let half := 2 ^ (e - 1) in
    let q' := if (half <? r) || ((r =? half)%Z && Z.odd q) then q + 1 else q in
    Z.sgn v * (q' * 2 ^ e).

(** The integers a number can hold. *)
Definition isNumber (v : Z) : Prop := roundToDouble v = v.

(** The integers with [k] significant digits next to [a] (which has [n]
    digits) that denote the number [a], nearest first. *)
Definition candidates (a : Z) (n k : nat) : list Z :=
  let p := 10 ^ Z.of_nat (n - k) in
  let lo := a / p * p in
  let hi := lo + p in
  let near := if a - lo <=? hi - a then [lo; hi] else [hi; lo] in
  filter (fun c => roundToDouble c = a) near.

Fixpoint shortestFrom (fuel : nat) (a : Z) (n k : nat) : Z :=
  match fuel with
  | O => a
  | S fuel' =>
      match candidates a n k with
      | c :: _ => c
      | [] => shortestFrom fuel' a n (S k)
      end
  end.

(** The integer whose digits [Number::toString] prints for the number
    [a >= 0]: as few significant digits as denote [a], then zeros. *)
Definition shortest (a : Z) : Z :=
  let n := digitCount a in shortestFrom n a n 1.

Fixpoint stripZeros (l : list ascii) : list ascii :=
  match l with
  | c :: l' => if Ascii.eqb c "0"%char then stripZeros l' else l
  | [] => []
  end.

(** Exponent notation, for [v >= 10^21]: [d.ddde+x]. *)
Definition exponential (v : Z) : string :=
  let ds := decimal v in
  let x := decimal (Z.of_nat (String.length ds) - 1) in
  match rev (stripZeros (rev (list_ascii_of_string ds))) with
  | [] => ds
  | [d] => String d ("e+" +:+ x)
  | d :: more => String d ("." +:+ string_of_list_ascii more +:+ "e+" +:+ x)
  end.

(** [String(n)], also the property key [n] names, for a number [n] that
    holds an integer: plain digits when the printed integer has at most 21
    of them, which is when [|n| < 10^21] ([10^21] being a number itself),
    exponent notation from there on. *)
Definition toString (n : Z) : string :=
  let v := shortest (Z.abs n) in
  let body := if Z.abs n <? 10 ^ 21 then decimal v else exponential v in
  if n <? 0 then String "-"%char body else body.

Definition isWhiteSpace (c : ascii) : bool :=
  let n := nat_of_ascii c in
  ((9 <=? n) && (n <=? 13) || (n =? 32) || (n =? 160))%nat.

Fixpoint trimStart (s : string) : string :=
  match s with
  | String c s' => if isWhiteSpace c then trimStart s' else s
  | EmptyString => EmptyString
  end.

Definition digitValue (c : ascii) : option Z :=
  let n := nat_of_ascii c in
  if ((48 <=? n) && (n <=? 57))%nat then Some (Z.of_nat n - 48) else None.

(** The value of the longest prefix of digits, [None] when it is empty;
    [acc] is the value of the digits read so far. *)
Fixpoint scanDigits (acc : option Z) (s : string) : option Z :=
  match s with
  | String c s' =>
      match digitValue c with
      | Some d => scanDigits (Some (default 0 acc * 10 + d)) s'
      | None => acc
      end
  | EmptyString => acc
  end.

(** What [parseInt] returns. *)
Inductive Number :=
  | NaN
  | Infinite (negative : bool)
  | Finite (value : Z).

Definition ofInteger (v : Z) : Number :=
  if Z.abs v <? 2 ^ 1024 - 2 ^ 970 then Finite (roundToDouble v)
  else Infinite (v <? 0).

(** [parseInt(s, 10)]: leading white space, a sign, then the longest run of
    digits; whatever follows is ignored. *)
Definition parseInt (s : string) : Number :=
  let t := trimStart s in
  let '(negative, body) :=
    match t with
    | String "-"%char t' => (true, t')
    | String "+"%char t' => (false, t')
    | _ => (false, t)
    end in
  match scanDigits None body with
  | None => NaN
  | Some m => ofInteger (if negative then - m else m)
  end.

Definition pad (width : nat) (n : Z) : string :=
  let ds := decimal n in
  string_of_list_ascii (repeat "0"%char (width - String.length ds)) +:+ ds.

(** Year, month and day of the day number [z] (days since 1970-01-01). *)
Definition civilFromDays (z : Z) : Z * Z * Z :=
  let z := z + 719468 in
  let era := z / 146097 in
  let doe := z - era * 146097 in
  let yoe := (doe - doe / 1460 + doe / 36524 - doe / 146096) / 365 in
  let doy := doe - (365 * yoe + yoe / 4 - yoe / 100) in
  let mp := (5 * doy + 2) / 153 in
  let d := doy - (153 * mp + 2) / 5 + 1 in
  let m := if mp <? 10 then mp + 3 else mp - 9 in
  (if m <=? 2 then yoe + era * 400 + 1 else yoe + era * 400, m, d).

(** [new Date(t).toISOString()] for a time value [t] in milliseconds. *)
Definition toISOString (t : Z) : string :=
  let '(y, m, d) := civilFromDays (t / 86400000) in
  let ms := t mod 86400000 in
  let year :=
    if (0 <=? y) && (y <=? 9999) then pad 4 y
    else String (if y <? 0 then "-"%char else "+"%char) (pad 6 (Z.abs y)) in
  year +:+ "-" +:+ pad 2 m +:+ "-" +:+ pad 2 d +:+ "T"
    +:+ pad 2 (ms / 3600000) +:+ ":" +:+ pad 2 (ms / 60000 mod 60) +:+ ":"
    +:+ pad 2 (ms / 1000 mod 60) +:+ "." +:+ pad 3 (ms mod 1000) +:+ "Z".

End JsNumber.

(** ** The data model *)

(** A record of the durable history ([SessionHistoryEntry]); the two time
    stamps are ISO-8601 strings. *)
Record SessionHistoryEntry := mkEntry {
  conversationId : string;
  claudeSessionId : option string;
  projectPath : string;
  projectName : string;
  lastMessagePreview : string;
  createdAt : string;
  lastActivity : string
}.

(** A [Date] object, by the way it was made: [new Date()] at a clock reading
    or [new Date(s)] from a string. *)
Inductive Date :=
  | DateOfTime (ms : Z)
  | DateOfString (s : string).

(** A live session ([Session]); its fields carry an [s] where the history
    entry has a field of the same name. *)
Record Session := mkSession {
  sConversationId : string;
  sClaudeSessionId : option string;
  workingDirectory : string;
  sCreatedAt : Date;
  sLastActivity : Date
}.

(** A parsed JSON document. The members of an object are in enumeration
    order and their keys are distinct. *)
#[local] Unset Elimination Schemes.
Inductive json :=
  | JNull
  | JBool (b : bool)
  | JNumber (n : Z)
  | JString (s : string)
  | JArray (items : list json)
  | JObject (members : list (string * json)).
#[local] Set Elimination Schemes.

(** The history file: absent, text that [JSON.parse] rejects, or a document.
    [JSON.stringify] followed by [JSON.parse] gives back the document. *)
Inductive File :=
  | Missing
  | Unparseable
  | Document (j : json).

(** The state of the process and of its file:
    [sessions] is [SessionManager.sessions], [data] is
    [SessionHistory.data.sessions], [disk] the content of [HISTORY_FILE] and
    [tick] the number of clock readings taken so far. *)
Record World := mkWorld {
  sessions : gmap Z Session;
  data : gmap Z (list SessionHistoryEntry);
  disk : File;
  tick : nat
}.

Definition MAX_HISTORY_PER_CHAT : nat := 20.

(** ** The JSON form of the history, and its validation *)

Definition getMember (key : string) (members : list (string * json)) : option json :=
  snd <$> List.find (fun m => String.eqb (fst m) key) members.

(** An entry as [JSON.stringify] writes it: a property whose value is
    [undefined] is left out. *)
Definition entryToJSON (e : SessionHistoryEntry) : json :=
  JObject
    ([("conversationId", JString (conversationId e))]
     ++ match claudeSessionId e with
        | Some c => [("claudeSessionId", JString c)]
        | None => []
        end
     ++ [("projectPath", JString (projectPath e));
         ("projectName", JString (projectName e));
         ("lastMessagePreview", JString (lastMessagePreview e));
         ("createdAt", JString (createdAt e));
         ("lastActivity", JString (lastActivity e))]).

(** The member written for a chat: its key is the chat id as a string. *)
Definition memberOf (kv : Z * list SessionHistoryEntry) : string * json :=
  (JsNumber.toString (fst kv), JArray (entryToJSON <$> snd kv)).

(** The members of the [sessions] object, one per chat. JavaScript
    enumerates the keys that are array indices in ascending order and then
    the others in the order they were added; that order is not kept here,
    the members come in the order of the map. What is said of the file's
    content is said up to the order of these members, and what [load] reads
    back does not depend on it for keys written in plain digits. *)
Definition sessionsToJSON (d : gmap Z (list SessionHistoryEntry)) : list (string * json) :=
  memberOf <$> map_to_list d.

(** [JSON.stringify(this.data)] as a document. *)
Definition dataToJSON (d : gmap Z (list SessionHistoryEntry)) : json :=
  JObject [("sessions", JObject (sessionsToJSON d))].

(** [z.string()] on a property that may be missing. *)
Definition zString (v : option json) : option string :=
  match v with
  | Some (JString s) => Some s
  | _ => None
  end.

(** [z.string().optional()]: a missing property is accepted. *)
Definition zOptionalString (v : option json) : option (option string) :=
  match v with
  | None => Some None
  | Some (JString s) => Some (Some s)
  | Some _ => None
  end.

(** [sessionHistoryEntrySchema]; [None] is a validation failure. *)
Definition parseEntry (j : json) : option SessionHistoryEntry :=
  match j with
  | JObject ms =>
      conv ← zString (getMember "conversationId" ms);
      csid ← zOptionalString (getMember "claudeSessionId" ms);
      path ← zString (getMember "projectPath" ms);
      name ← zString (getMember "projectName" ms);
      preview ← zString (getMember "lastMessagePreview" ms);
      created ← zString (getMember "createdAt" ms);
      active ← zString (getMember "lastActivity" ms);
      Some (mkEntry conv csid path name preview created active)
  | _ => None
  end.

(** [z.array(sessionHistoryEntrySchema)] *)
Definition parseEntries (j : json) : option (list SessionHistoryEntry) :=
  match j with
  | JArray items => mapM parseEntry items
  | _ => None
  end.

(** [z.record(z.string(), z.array(...))], as the list [Object.entries]
    gives. *)
Definition parseRecord (j : json) : option (list (string * list SessionHistoryEntry)) :=
  match j with
  | JObject ms => mapM (fun m => pair (fst m) <$> parseEntries (snd m)) ms
  | _ => None
  end.

(** [sessionHistoryDataSchema.safeParse] *)
Definition safeParse (j : json) : option (list (string * list SessionHistoryEntry)) :=
  match j with
  | JObject ms => getMember "sessions" ms ≫= parseRecord
  | _ => None
  end.

(** The loop of [load] over the validated record: a key that [parseInt]
    turns into [NaN] is skipped. A key that [parseInt] turns into an
    infinity (digits beyond the range of a number) is kept by the code
    under the property [Infinity]; [data] is keyed by integers, which never
    read that property, and leaves it out. *)
Definition loadRecord (record : list (string * list SessionHistoryEntry))
  : gmap Z (list SessionHistoryEntry) :=
  foldl (fun acc kv =>
           match JsNumber.parseInt (fst kv) with
           | JsNumber.Finite chatId => <[chatId := snd kv]> acc
           | _ => acc
           end) ∅ record.

(** [SessionHistory.load]: the history read from the file; [current] is the
    value of [this.data.sessions] before the call. *)
Definition load (file : File) (current : gmap Z (list SessionHistoryEntry))
  : gmap Z (list SessionHistoryEntry) :=
  match file with
  | Missing => current
  | Unparseable => ∅
  | Document j =>
      match safeParse j with
      | Some record => loadRecord record
      | None => ∅
      end
  end.

(** [SessionHistory.save], when the write succeeds. A write that fails is
    caught and logged by the code and leaves the file as it was; that
    branch is not modelled, so what is said of [disk] after a call holds
    for writes that succeed. The history in memory is the same either
    way. *)
Definition save (w : World) : World :=
  mkWorld (sessions w) (data w) (Document (dataToJSON (data w))) (tick w).

(** The process after a restart on the same file: the constructor of
    [SessionHistory] runs [load] on empty data, and no session is live. *)
Definition restart (w : World) : World :=
  mkWorld ∅ (load (disk w) ∅) (disk w) (tick w).

(** ** The operations *)

Section Model.

(** [os.homedir()] *)
Variable home : string.

(** [fs.existsSync] on the paths the resolver asks about. *)
Variable existsSync : string -> bool.

(** The readings of the system clock, in the order the process takes them:
    [new Date()] and [Date.now()] take the next one. *)
Variable clock : nat -> Z.

(** *** PathResolver *)

Definition homePrefixes : list string := ["/Users/"; "/home/"].

(** The candidate built for a stored path that starts with [prefix]. *)
Definition remap (prefix storedPath : string) : string :=
  let rest := JsString.slice (String.length prefix) storedPath in
  match JsString.indexOf JsString.slash rest with
  | None => home
  | Some slashIdx => home +:+ JsString.slice slashIdx rest
  end.

(** The [for] loop over the prefixes; [Some] is its early [return]. *)
Fixpoint tryPrefixes (prefixes : list string) (storedPath : string) : option string :=
  match prefixes with
  | [] => None
  | prefix :: others =>
      if JsString.startsWith prefix storedPath then
        let remapped := remap prefix storedPath in
        if existsSync remapped then Some remapped
        else tryPrefixes others storedPath
      else tryPrefixes others storedPath
  end.

Definition resolveWorkingDirectory (storedPath : string) : string :=
  if existsSync storedPath then storedPath
  else match tryPrefixes homePrefixes storedPath with
       | Some remapped => remapped
       | None => home
       end.

(** The specification's wording of the remapped candidate, for a stored path
    [prefix +:+ rest]: the remainder of [rest] after the username segment,
    spliced onto the current home directory. *)
Definition splice (rest : string) : string :=
  home +:+ JsString.fromFirst JsString.slash rest.

(** *** HistoryStore *)

(** [history.findIndex(entry => entry.conversationId === conv)]; [None] is
    [-1]. *)
Fixpoint findIndex (conv : string) (history : list SessionHistoryEntry) : option nat :=
  match history with
  | [] => None
  | e :: rest =>
      if String.eqb (conversationId e) conv then Some O
      else S <$> findIndex conv rest
  end.

(** [new Date().toISOString()] at reading number [t]. *)
Definition isoAt (t : nat) : string := JsNumber.toISOString (clock t).

Definition saveSession (chatId : Z) (conv path preview : string)
    (csid : option string) (w : World) : World :=
  let history := default [] (data w !! chatId) in
  let existingIndex := findIndex conv history in
  let existingEntry := existingIndex ≫= (fun i => history !! i) in
  let created :=
    match existingEntry with
    | Some e => (createdAt e, tick w)
    | None => (isoAt (tick w), S (tick w))
    end in
  let entry :=
    {| conversationId := conv;
       claudeSessionId :=
         match csid with
         | Some c => Some c
         | None => existingEntry ≫= claudeSessionId
         end;
       projectPath := path;
       projectName := JsString.basename path;
       lastMessagePreview := JsString.substring0 100 preview;
       createdAt := fst created;
       lastActivity := isoAt (snd created) |} in
  let updated :=
    match existingIndex with
    | Some i => <[i := entry]> history
    | None => entry :: history
    end in
  let kept :=
    if (MAX_HISTORY_PER_CHAT <? length updated)%nat
    then take MAX_HISTORY_PER_CHAT updated
    else updated in
  save (mkWorld (sessions w) (<[chatId := kept]> (data w)) (disk w) (S (snd created))).

(** The entry [saveSession] writes over [old]. *)
Definition replacement (conv path preview : string) (csid : option string)
    (old : SessionHistoryEntry) (w : World) : SessionHistoryEntry :=
  mkEntry conv (match csid with Some c => Some c | None => claudeSessionId old end)
    path (JsString.basename path) (JsString.substring0 100 preview)
    (createdAt old) (isoAt (tick w)).

(** The entry [saveSession] makes for a conversation the chat does not have. *)
Definition inserted (conv path preview : string) (csid : option string)
    (w : World) : SessionHistoryEntry :=
  mkEntry conv csid path (JsString.basename path) (JsString.substring0 100 preview)
    (isoAt (tick w)) (isoAt (S (tick w))).

(** The list [this.data.sessions[chatId] || []]. *)
Definition historyOf (chatId : Z) (w : World) : list SessionHistoryEntry :=
  default [] (data w !! chatId).

(** [getHistory(chatId, limit)] for a limit that is a natural number. *)
Definition getHistory (chatId : Z) (limit : nat) (w : World) : list SessionHistoryEntry :=
  take limit (historyOf chatId w).

Definition getLastSession (chatId : Z) (w : World) : option SessionHistoryEntry :=
  data w !! chatId ≫= head.

Definition getSessionByConversationId (chatId : Z) (conv : string) (w : World)
  : option SessionHistoryEntry :=
  List.find (fun e => String.eqb (conversationId e) conv) (historyOf chatId w).

(** The shape [updateLastMessage] and [updateClaudeSessionId] share: the
    first entry of the conversation is changed where it lies, and the file
    is written only when there is one. *)
Definition updateEntry (chatId : Z) (conv : string)
    (change : SessionHistoryEntry -> SessionHistoryEntry) (w : World) : World :=
  match data w !! chatId with
  | None => w
  | Some history =>
      match findIndex conv history ≫= (fun i => pair i <$> history !! i) with
      | None => w
      | Some (i, e) =>
          save (mkWorld (sessions w) (<[chatId := <[i := change e]> history]> (data w))
                  (disk w) (S (tick w)))
      end
  end.

Definition updateLastMessage (chatId : Z) (conv preview : string) (w : World) : World :=
  updateEntry chatId conv
    (fun e => mkEntry (conversationId e) (claudeSessionId e) (projectPath e)
                (projectName e) (JsString.substring0 100 preview) (createdAt e)
                (isoAt (tick w))) w.

Definition updateClaudeSessionId (chatId : Z) (conv csid : string) (w : World) : World :=
  updateEntry chatId conv
    (fun e => mkEntry (conversationId e) (Some csid) (projectPath e)
                (projectName e) (lastMessagePreview e) (createdAt e)
                (isoAt (tick w))) w.

Definition clearHistory (chatId : Z) (w : World) : World :=
  save (mkWorld (sessions w) (delete chatId (data w)) (disk w) (tick w)).

(** *** SessionManager *)

Definition getSession (chatId : Z) (w : World) : option Session :=
  sessions w !! chatId.

(** [generateConversationId()]: a clock reading and the seven characters
    [rnd] taken from [Math.random()]. *)
Definition generateConversationId (rnd : string) (w : World) : string :=
  "conv_" +:+ JsNumber.toString (clock (tick w)) +:+ "_" +:+ rnd.

(** [createSession(chatId, workingDirectory, conversationId?)]; [rnd] is
    what [Math.random()] contributes when an id is generated. *)
Definition createSession (chatId : Z) (dir : string) (conv : option string)
    (rnd : string) (w : World) : Session * World :=
  let resolved := resolveWorkingDirectory dir in
  let chosen :=
    match conv with
    | Some c => if JsString.truthy c then (c, tick w)
                else (generateConversationId rnd w, S (tick w))
    | None => (generateConversationId rnd w, S (tick w))
    end in
  let session :=
    {| sConversationId := fst chosen;
       sClaudeSessionId := None;
       workingDirectory := resolved;
       sCreatedAt := DateOfTime (clock (snd chosen));
       sLastActivity := DateOfTime (clock (S (snd chosen))) |} in
  let w1 := mkWorld (<[chatId := session]> (sessions w)) (data w) (disk w)
              (S (S (snd chosen))) in
  (session, saveSession chatId (sConversationId session) resolved "" (sClaudeSessionId session) w1).

Definition updateActivity (chatId : Z) (messagePreview : option string) (w : World) : World :=
  match sessions w !! chatId with
  | None => w
  | Some session =>
      let session' :=
        mkSession (sConversationId session) (sClaudeSessionId session)
          (workingDirectory session) (sCreatedAt session) (DateOfTime (clock (tick w))) in
      let w1 := mkWorld (<[chatId := session']> (sessions w)) (data w) (disk w) (S (tick w)) in
      match messagePreview with
      | Some preview =>
          if JsString.truthy preview
          then updateLastMessage chatId (sConversationId session') preview w1
          else w1
      | None => w1
      end
  end.

Definition setWorkingDirectory (chatId : Z) (directory rnd : string) (w : World)
  : Session * World :=
  match sessions w !! chatId with
  | Some existing =>
      let existing' :=
        mkSession (sConversationId existing) (sClaudeSessionId existing)
          directory (sCreatedAt existing) (DateOfTime (clock (tick w))) in
      let w1 := mkWorld (<[chatId := existing']> (sessions w)) (data w) (disk w) (S (tick w)) in
      (existing',
       saveSession chatId (sConversationId existing') directory "" (sClaudeSessionId existing') w1)
  | None => createSession chatId directory None rnd w
  end.

Definition clearSession (chatId : Z) (w : World) : World :=
  mkWorld (delete chatId (sessions w)) (data w) (disk w) (tick w).

Definition resumeSession (chatId : Z) (conv : string) (w : World) : option Session * World :=
  match getSessionByConversationId chatId conv w with
  | None => (None, w)
  | Some historyEntry =>
      let resolvedPath := resolveWorkingDirectory (projectPath historyEntry) in
      let session :=
        {| sConversationId := conversationId historyEntry;
           sClaudeSessionId := claudeSessionId historyEntry;
           workingDirectory := resolvedPath;
           sCreatedAt := DateOfString (createdAt historyEntry);
           sLastActivity := DateOfTime (clock (tick w)) |} in
      let w1 := mkWorld (<[chatId := session]> (sessions w)) (data w) (disk w) (S (tick w)) in
      (Some session,
       saveSession chatId conv resolvedPath (lastMessagePreview historyEntry)
         (claudeSessionId historyEntry) w1)
  end.

Definition resumeLastSession (chatId : Z) (w : World) : option Session * World :=
  match getLastSession chatId w with
  | None => (None, w)
  | Some lastEntry => resumeSession chatId (conversationId lastEntry) w
  end.

Definition getSessionHistory (chatId : Z) (limit : nat) (w : World) : list SessionHistoryEntry :=
  getHistory chatId limit w.

Definition setClaudeSessionId (chatId : Z) (csid : string) (w : World) : World :=
  match sessions w !! chatId with
  | None => w
  | Some session =>
      let session' :=
        mkSession (sConversationId session) (Some csid) (workingDirectory session)
          (sCreatedAt session) (DateOfTime (clock (tick w))) in
      let w1 := mkWorld (<[chatId := session']> (sessions w)) (data w) (disk w) (S (tick w)) in
      updateClaudeSessionId chatId (sConversationId session') csid w1
  end.

(** *** Sequences of calls *)

(** A call of a public operation that can change the state, with its
    arguments. The first four are HistoryStore's, the others
    SessionManager's. *)
Inductive Op :=
  | CallSaveSession (chatId : Z) (conv path preview : string) (csid : option string)
  | CallUpdateLastMessage (chatId : Z) (conv preview : string)
  | CallUpdateClaudeSessionId (chatId : Z) (conv csid : string)
  | CallClearHistory (chatId : Z)
  | CallCreateSession (chatId : Z) (dir : string) (conv : option string) (rnd : string)
  | CallUpdateActivity (chatId : Z) (messagePreview : option string)
  | CallSetWorkingDirectory (chatId : Z) (directory rnd : string)
  | CallClearSession (chatId : Z)
  | CallResumeSession (chatId : Z) (conv : string)
  | CallResumeLastSession (chatId : Z)
  | CallSetClaudeSessionId (chatId : Z) (csid : string).

Definition step (w : World) (op : Op) : World :=
  match op with
  | CallSaveSession c conv path preview csid => saveSession c conv path preview csid w
  | CallUpdateLastMessage c conv preview => updateLastMessage c conv preview w
  | CallUpdateClaudeSessionId c conv csid => updateClaudeSessionId c conv csid w
  | CallClearHistory c => clearHistory c w
  | CallCreateSession c dir conv rnd => snd (createSession c dir conv rnd w)
  | CallUpdateActivity c preview => updateActivity c preview w
  | CallSetWorkingDirectory c dir rnd => snd (setWorkingDirectory c dir rnd w)
  | CallClearSession c => clearSession c w
  | CallResumeSession c conv => snd (resumeSession c conv w)
  | CallResumeLastSession c => snd (resumeLastSession c w)
  | CallSetClaudeSessionId c csid => setClaudeSessionId c csid w
  end.

(** The calls that go through SessionManager. *)
Definition isManagerOp (op : Op) : bool :=
  match op with
  | CallSaveSession _ _ _ _ _ | CallUpdateLastMessage _ _ _
  | CallUpdateClaudeSessionId _ _ _ | CallClearHistory _ => false
  | _ => true
  end.

(** The chat an operation is called for. *)
Definition chatOf (op : Op) : Z :=
  match op with
  | CallSaveSession c _ _ _ _ | CallUpdateLastMessage c _ _
  | CallUpdateClaudeSessionId c _ _ | CallClearHistory c
  | CallCreateSession c _ _ _ | CallUpdateActivity c _
  | CallSetWorkingDirectory c _ _ | CallClearSession c
  | CallResumeSession c _ | CallResumeLastSession c
  | CallSetClaudeSessionId c _ => c
  end.

(** The state after the calls [ops], made in order from [w]. *)
Definition run (ops : list Op) (w : World) : World := foldl step w ops.

(** What a call does to the history of its chat [c]: nothing, a
    [saveSession], a change of one entry, or [clearHistory]; the live
    sessions and the clock move besides. *)
Inductive primitive (c : Z) (w : World) : World -> Prop :=
  | prim_same s t :
      primitive c w (mkWorld s (data w) (disk w) t)
  | prim_save s t conv path preview csid :
      primitive c w (saveSession c conv path preview csid
                       (mkWorld s (data w) (disk w) t))
  | prim_update s t conv change :
      primitive c w (updateEntry c conv change (mkWorld s (data w) (disk w) t))
  | prim_clear :
      primitive c w (clearHistory c w).

End Model.

(** A process started with no history file. *)
Definition initial : World := mkWorld ∅ ∅ Missing 0.

(** The chat ids whose property key is written in plain digits: the
    integers a number can hold, below [10^21] in magnitude. *)
Definition plainChatId (chatId : Z) : Prop :=
  JsNumber.isNumber chatId /\ Z.abs chatId < 10 ^ 21.

(** ** Invariants of the reachable states *)

(** The reading numbers [js] go down strictly and stay below [t]. *)
Fixpoint descending (t : nat) (js : list nat) : Prop :=
  match js with
  | [] => True
  | j :: js' => (j < t)%nat /\ descending j js'
  end.

(** A chat's list as the operations leave it when [t] readings are taken:
    within the cap, one entry per conversation, and created at readings that
    go down from the head. *)
Definition wellFormedHistory (clock : nat -> Z) (t : nat)
    (l : list SessionHistoryEntry) : Prop :=
  (length l <= MAX_HISTORY_PER_CHAT)%nat
  /\ NoDup (conversationId <$> l)
  /\ exists js, createdAt <$> l = isoAt clock <$> js /\ descending t js.

Definition storeInv (clock : nat -> Z) (w : World) : Prop :=
  forall c l, data w !! c = Some l -> wellFormedHistory clock (tick w) l.

(** The conversation of every live session has an entry in its chat's list. *)
Definition liveInv (w : World) : Prop :=
  forall c s, sessions w !! c = Some s ->
              sConversationId s ∈ conversationId <$> historyOf c w.

(** The file holds what [save] writes for the history in memory, or there
    is neither a file nor a history yet. *)
Definition synced (w : World) : Prop :=
  disk w = Document (dataToJSON (data w)) \/ (disk w = Missing /\ data w = ∅).

(** ** A sample machine and a sample run *)

(** The home directory is [/home/bob], and of the paths asked about only it
    and [/home/bob/proj] exist; the clock starts at 2023-11-14T22:13:20Z and
    moves a millisecond at each reading. *)
Definition bobHome : string := "/home/bob".

Definition bobFs (p : string) : bool :=
  String.eqb p "/home/bob/proj" || String.eqb p "/home/bob".

Definition bobClock (n : nat) : Z := 1700000000000 + Z.of_nat n.

Definition sampleOps : list Op :=
  [CallCreateSession 42 "/Users/alice/proj" None "k3x9q2a";
   CallUpdateActivity 42 (Some "hello");
   CallCreateSession 42 "/nowhere" (Some "second") "";
   CallSetClaudeSessionId 42 "sess-1";
   CallCreateSession (-1001234567890) "/home/carol" (Some "third") ""].

Definition sampleWorld : World := run bobHome bobFs bobClock sampleOps initial.

(** The history of chat 42 after the sample run, head first. *)
Definition sampleSecond : SessionHistoryEntry :=
  mkEntry "second" (Some "sess-1") "/home/bob" "bob" ""
    "2023-11-14T22:13:20.009Z" "2023-11-14T22:13:20.012Z".

Definition sampleFirst : SessionHistoryEntry :=
  mkEntry "conv_1700000000000_k3x9q2a" None "/home/bob/proj" "proj" "hello"
    "2023-11-14T22:13:20.003Z" "2023-11-14T22:13:20.006Z".

(** The live session of chat 42 after the sample run. *)
Definition sampleLive : Session :=
  mkSession "second" (Some "sess-1") "/home/bob"
    (DateOfTime 1700000000007) (DateOfTime 1700000000011).

(** ** The rest of HistoryStore and of the module *)

(** [getAllActiveSessions()]: the chats are enumerated by their property
    keys, each key read back with [parseInt], and a chat with an empty list
    is passed over. A key of a plain chat id reads back as the id; a result
    that is not a finite integer names no chat and is left out. *)
Definition getAllActiveSessions (w : World) : gmap Z SessionHistoryEntry :=
  foldl (fun active kv =>
           match head (snd kv), JsNumber.parseInt (JsNumber.toString (fst kv)) with
           | Some e, JsNumber.Finite chatId => <[chatId := e]> active
           | _, _ => active
           end) ∅ (map_to_list (data w)).

(** The id [createSession] goes on with. *)
Definition chosenId (clock : nat -> Z) (conv : option string) (rnd : string)
    (w : World) : string :=
  match conv with
  | Some x => if JsString.truthy x then x else generateConversationId clock rnd w
  | None => generateConversationId clock rnd w
  end.

(** What a call for chat [c] does, by the operation of HistoryStore it ends
    in; [s] stands for the live sessions after the call, which differ from
    those before at chat [c] at most. *)
Inductive effect (clock : nat -> Z) (c : Z) (w : World) : World -> Prop :=
  | effect_none s t :
      (forall c', c' ≠ c -> s !! c' = sessions w !! c') ->
      effect clock c w (mkWorld s (data w) (disk w) t)
  | effect_saveSession s t conv path preview csid :
      (forall c', c' ≠ c -> s !! c' = sessions w !! c') ->
      effect clock c w (saveSession clock c conv path preview csid
                          (mkWorld s (data w) (disk w) t))
  | effect_updateLastMessage s t conv preview :
      (forall c', c' ≠ c -> s !! c' = sessions w !! c') ->
      effect clock c w (updateLastMessage clock c conv preview
                          (mkWorld s (data w) (disk w) t))
  | effect_updateClaudeSessionId s t conv csid :
      (forall c', c' ≠ c -> s !! c' = sessions w !! c') ->
      effect clock c w (updateClaudeSessionId clock c conv csid
                          (mkWorld s (data w) (disk w) t))
  | effect_clearHistory :
      effect clock c w (clearHistory c w).

(** What every entry the operations write satisfies: the preview is cut to
    100 units and the project name is the last segment of the path. *)
Definition entryOk (e : SessionHistoryEntry) : Prop :=
  (String.length (lastMessagePreview e) <= 100)%nat
  /\ projectName e = JsString.basename (projectPath e).

Definition entriesInv (w : World) : Prop :=
  forall c l, data w !! c = Some l -> Forall entryOk l.

(** The live session of a chat and the entry of its conversation agree on
    the directory. *)
Definition pathInv (w : World) : Prop :=
  forall c s, sessions w !! c = Some s ->
              exists e, getSessionByConversationId c (sConversationId s) w = Some e
                        /\ projectPath e = workingDirectory s.

(** ** Telegraph settings, the second module of [session-manager.ts] *)

Module Telegraph.

Record TelegraphSettings := mkSettings { enabled : bool }.

(** A JavaScript number as an argument: not a number, infinite, or the
    fraction [numerator / denominator]. *)
Inductive number :=
  | NotANumber
  | Infinity (negative : bool)
  | Fraction (numerator : Z) (denominator : positive).

(** The map [chatTelegraphSettings] and the content of [SETTINGS_FILE]. The
    keys of the map are integers, as every key the functions below add is. *)
Record State := mkState {
  chatTelegraphSettings : gmap Z TelegraphSettings;
  file : File
}.

(** [validateChatId]: [None] when it throws, else the integer the number
    holds, which is the key the caller goes on with. *)
Definition validateChatId (chatId : number) : option Z :=
  match chatId with
  | Fraction n d =>
      if (n <=? 0) || negb (n mod Z.pos d =? 0) then None else Some (n / Z.pos d)
  | _ => None
  end.

Section Settings.

(** [config.TELEGRAPH_ENABLED] *)
Variable TELEGRAPH_ENABLED : bool.

(** [normalizeSettings(settings?)]: the argument is the [enabled] property
    when the settings are given and have one of type boolean. *)
Definition normalizeSettings (settings : option bool) : TelegraphSettings :=
  mkSettings (match settings with Some b => b | None => TELEGRAPH_ENABLED end).

Definition settingsToJSON (m : gmap Z TelegraphSettings) : json :=
  JObject [("settings",
            JObject ((fun kv => (JsNumber.toString (fst kv),
                                 JObject [("enabled", JBool (enabled (snd kv)))]))
                       <$> map_to_list m))].

(** [saveSettings], when the write succeeds. *)
Definition saveSettings (st : State) : State :=
  mkState (chatTelegraphSettings st)
    (Document (settingsToJSON (chatTelegraphSettings st))).

(** [getTelegraphSettings(chatId)]: [None] in front when it throws. *)
Definition getTelegraphSettings (chatId : number) (st : State)
  : option TelegraphSettings * State :=
  match validateChatId chatId with
  | None => (None, st)
  | Some key =>
      match chatTelegraphSettings st !! key with
      | Some existing => (Some existing, st)
      | None =>
          let defaults := normalizeSettings None in
          (Some defaults,
           saveSettings (mkState (<[key := defaults]> (chatTelegraphSettings st)) (file st)))
      end
  end.

(** [setTelegraphEnabled(chatId, enabled)]: the stored object is changed in
    place; [false] in front when it throws. *)
Definition setTelegraphEnabled (chatId : number) (value : bool) (st : State)
  : bool * State :=
  match validateChatId chatId with
  | None => (false, st)
  | Some key =>
      match getTelegraphSettings chatId st with
      | (Some _, st1) =>
          (true,
           saveSettings (mkState (<[key := mkSettings value]> (chatTelegraphSettings st1))
                           (file st1)))
      | (None, st1) => (false, st1)
      end
  end.

Definition isTelegraphEnabled (chatId : number) (st : State) : option bool * State :=
  match getTelegraphSettings chatId st with
  | (Some settings, st1) => (Some (enabled settings), st1)
  | (None, st1) => (None, st1)
  end.

End Settings.

End Telegraph.

(** * Part II: the facts *)

Example toString_examples :
  map JsNumber.toString [0; 42; -1001234567890; 2 ^ 53; 2 ^ 60; 2 ^ 64; 10 ^ 21; 15 * 10 ^ 20; 2 ^ 70]
  = ["0"; "42"; "-1001234567890"; "9007199254740992"; "1152921504606847000";
     "18446744073709552000"; "1e+21"; "1.5e+21"; "1.1805916207174113e+21"].
Proof. vm_compute. reflexivity. Qed.

Example parseInt_examples :
  map JsNumber.parseInt ["42"; "-7"; "  +15px"; "1e+21"; "abc"; ""; "-"; "1152921504606847000"; "9007199254740993"]
  = [JsNumber.Finite 42; JsNumber.Finite (-7); JsNumber.Finite 15; JsNumber.Finite 1;
     JsNumber.NaN; JsNumber.NaN; JsNumber.NaN; JsNumber.Finite (2 ^ 60);
     JsNumber.Finite 9007199254740992].
Proof. vm_compute. reflexivity. Qed.

Example toISOString_examples :
  map JsNumber.toISOString [0; 951782400000; 1700000000000; -1]
  = ["1970-01-01T00:00:00.000Z"; "2000-02-29T00:00:00.000Z";
     "2023-11-14T22:13:20.000Z"; "1969-12-31T23:59:59.999Z"].
Proof. vm_compute. reflexivity. Qed.

Example basename_examples :
  map JsString.basename ["/home/bob/proj"; "/home/bob/proj/"; "proj"; "/"; ""; "/a//"]
  = ["proj"; "proj"; "proj"; ""; ""; "a"].
Proof. vm_compute. reflexivity. Qed.

(** ** Strings *)

Module JsStringFacts.
Import JsString.

Lemma app_cons a (s t : string) : String a s +:+ t = String a (s +:+ t).
Proof. reflexivity. Qed.

Lemma app_empty_r (s : string) : s +:+ "" = s.
Proof. induction s as [|a s IH]; [done|]. rewrite app_cons. congruence. Qed.

Lemma startsWith_app p r : startsWith p (p +:+ r) = true.
Proof.
  induction p as [|a p IH]; [done|].
  rewrite app_cons. simpl. by rewrite Ascii.eqb_refl.
Qed.

Lemma startsWith_inv p s :
  startsWith p s = true -> s = p +:+ slice (String.length p) s.
Proof.
  revert s. induction p as [|a p IH]; intros s H; simpl in *; [done|].
  destruct s as [|b s]; [done|].
  destruct (Ascii.eqb_spec a b) as [->|]; [|done].
  rewrite app_cons. simpl. f_equal. by apply IH.
Qed.

Lemma slice_app p r : slice (String.length p) (p +:+ r) = r.
Proof. induction p as [|a p IH]; [done|]. rewrite app_cons. by simpl. Qed.

Lemma slice_indexOf c s i : indexOf c s = Some i -> slice i s = fromFirst c s.
Proof.
  revert i. induction s as [|a s IH]; intros i H; simpl in *; [done|].
  destruct (Ascii.eqb a c); [by inversion H|].
  destruct (indexOf c s) as [j|]; simpl in H; [|done].
  inversion H; subst. simpl. by apply IH.
Qed.

Lemma indexOf_None c s : indexOf c s = None -> fromFirst c s = "".
Proof.
  induction s as [|a s IH]; simpl; [done|].
  destruct (Ascii.eqb a c); [done|].
  destruct (indexOf c s); simpl; [done|]. auto.
Qed.

End JsStringFacts.

(** ** Numbers *)

Module JsNumberFacts.
Import JsNumber.

Lemma digit_cases d : 0 <= d <= 9 ->
  d = 0 \/ d = 1 \/ d = 2 \/ d = 3 \/ d = 4 \/ d = 5 \/ d = 6 \/ d = 7 \/ d = 8 \/ d = 9.
Proof. lia. Qed.

Lemma digitValue_digitChar d : 0 <= d <= 9 -> digitValue (digitChar d) = Some d.
Proof.
  intros H. destruct (digit_cases d H) as [->|[->|[->|[->|[->|[->|[->|[->|[->| ->]]]]]]]]];
    reflexivity.
Qed.

(** Scanning the digits of [n] multiplies what was read by a power of ten
    and adds [n]. *)
Lemma scanDigits_digitsOnto fuel n rest acc :
  0 <= n < 10 ^ Z.of_nat fuel -> (0 < fuel)%nat ->
  exists m, 0 <= m
            /\ scanDigits acc (digitsOnto fuel n rest)
               = scanDigits (Some (default 0 acc * 10 ^ m + n)) rest.
Proof.
  revert n rest acc. induction fuel as [|fuel IH]; intros n rest acc Hn Hf; [lia|].
  cbn [digitsOnto].
  assert (0 <= n mod 10 <= 9) as Hd by (pose proof (Z.mod_pos_bound n 10); lia).
  pose proof (Z.div_mod n 10 ltac:(lia)) as Hdm.
  destruct (Z.eqb_spec (n / 10) 0) as [Hz|Hnz].
  - exists 1. split; [lia|]. cbn [scanDigits]. rewrite (digitValue_digitChar _ Hd).
    do 2 f_equal. rewrite Z.pow_1_r. lia.
  - assert (0 <= n / 10 < 10 ^ Z.of_nat fuel) as Hq.
    { split; [apply Z.div_pos; lia|].
      apply Z.div_lt_upper_bound; [lia|].
      rewrite Nat2Z.inj_succ, Z.pow_succ_r in Hn; lia. }
    assert (0 < fuel)%nat as Hf'.
    { destruct fuel; [|lia]. simpl in Hq. lia. }
    destruct (IH (n / 10) (String (digitChar (n mod 10)) rest) acc Hq Hf')
      as (m & Hm0 & Hm).
    exists (m + 1). split; [lia|]. rewrite Hm. cbn [scanDigits].
    rewrite (digitValue_digitChar _ Hd). do 2 f_equal. cbn [default].
    rewrite Z.pow_add_r, Z.pow_1_r by lia. unfold id. lia.
Qed.

Lemma decimal_fuel n : 0 <= n -> n < 10 ^ Z.of_nat (S (Z.to_nat (Z.log2 n))).
Proof.
  intros Hn. rewrite Nat2Z.inj_succ, Z2Nat.id by apply Z.log2_nonneg.
  assert (n = 0 \/ 0 < n) as [->|Hpos] by lia; [done|].
  pose proof (Z.log2_spec n Hpos) as [_ Hlt].
  eapply Z.lt_le_trans; [exact Hlt|].
  apply Z.pow_le_mono_l. pose proof (Z.log2_nonneg n). lia.
Qed.

Lemma scanDigits_decimal n : 0 <= n -> scanDigits None (decimal n) = Some n.
Proof.
  intros Hn. unfold decimal.
  destruct (scanDigits_digitsOnto _ n "" None (conj Hn (decimal_fuel n Hn)) ltac:(lia))
    as (m & _ & ->).
  simpl; f_equal; lia.
Qed.

(** The digits of a number start with a digit. *)
Lemma digitsOnto_head fuel n rest :
  0 <= n -> (0 < fuel)%nat ->
  exists d s, 0 <= d <= 9 /\ digitsOnto fuel n rest = String (digitChar d) s.
Proof.
  revert n rest. induction fuel as [|fuel IH]; intros n rest Hn Hf; [lia|].
  cbn [digitsOnto].
  assert (0 <= n mod 10 <= 9) as Hd by (pose proof (Z.mod_pos_bound n 10); lia).
  destruct (Z.eqb_spec (n / 10) 0) as [Hz|Hnz]; [by eauto|].
  destruct fuel as [|fuel]; [by eauto|].
  apply IH; [apply Z.div_pos|]; lia.
Qed.

Lemma length_digitsOnto fuel n rest :
  (String.length (digitsOnto fuel n rest) <= fuel + String.length rest)%nat.
Proof.
  revert n rest. induction fuel as [|fuel IH]; intros n rest; cbn [digitsOnto]; [lia|].
  destruct (n / 10 =? 0).
  - simpl. lia.
  - etrans; [apply IH|]. simpl. lia.
Qed.

Lemma digitCount_bound a : 0 <= a < 2 ^ 70 -> (digitCount a <= 70)%nat.
Proof.
  intros [H0 Ha]. unfold digitCount, decimal.
  etrans; [apply length_digitsOnto|]. simpl.
  assert (Z.log2 a < 70); [|lia].
  assert (a = 0 \/ 0 < a) as [->|Hpos] by lia; [done|].
  by apply Z.log2_lt_pow2.
Qed.

Lemma roundToDouble_opp v : roundToDouble (- v) = - roundToDouble v.
Proof.
  unfold roundToDouble. rewrite Z.abs_opp, Z.sgn_opp.
  destruct (Z.abs v <? 2 ^ 53); lia.
Qed.

Lemma isNumber_abs n : isNumber n -> isNumber (Z.abs n).
Proof.
  unfold isNumber. intros H. destruct (Z.abs_spec n) as [[_ ->]|[_ ->]]; [done|].
  rewrite roundToDouble_opp. lia.
Qed.

(** What is printed for a number denotes that number, and is not far off. *)
Lemma shortestFrom_spec fuel a n k :
  0 <= a -> isNumber a ->
  roundToDouble (shortestFrom fuel a n k) = a
  /\ 0 <= shortestFrom fuel a n k <= a + 10 ^ Z.of_nat n.
Proof.
  intros Ha Hnum. revert k. induction fuel as [|fuel IH]; intros k; cbn [shortestFrom].
  { split; [done|]. pose proof (Z.pow_nonneg 10 (Z.of_nat n)). lia. }
  destruct (candidates a n k) as [|c cs] eqn:E; [apply IH|].
  assert (c ∈ candidates a n k) as Hc by (rewrite E; left).
  unfold candidates in Hc. apply list_elem_of_filter in Hc as [Hr Hc].
  split; [done|].
  set (p := 10 ^ Z.of_nat (n - k)) in *.
  assert (0 < p) as Hp by (apply Z.pow_pos_nonneg; lia).
  assert (p <= 10 ^ Z.of_nat n) as Hpn by (apply Z.pow_le_mono_r; lia).
  pose proof (Z.mul_div_le a p Hp) as Hle.
  assert (0 <= a / p * p) as Hlo.
  { apply Z.mul_nonneg_nonneg; [apply Z.div_pos|]; lia. }
  assert (c = a / p * p \/ c = a / p * p + p) as [->| ->]; [|lia..].
  destruct (a - a / p * p <=? a / p * p + p - a);
    repeat (apply elem_of_cons in Hc as [->|Hc]; [by auto|]);
    by apply elem_of_nil in Hc.
Qed.

Lemma shortest_spec a :
  0 <= a < 10 ^ 21 -> isNumber a ->
  roundToDouble (shortest a) = a /\ 0 <= shortest a < 2 ^ 1024 - 2 ^ 970.
Proof.
  intros [H0 Ha] Hnum. unfold shortest.
  destruct (shortestFrom_spec (digitCount a) a (digitCount a) 1 H0 Hnum) as [Hr [Hlo Hhi]].
  split; [done|]. split; [done|].
  assert (digitCount a <= 70)%nat as Hc by (apply digitCount_bound; lia).
  assert (10 ^ Z.of_nat (digitCount a) <= 10 ^ 70) as Hp
    by (apply Z.pow_le_mono_r; lia).
  assert (10 ^ 21 + 10 ^ 70 < 2 ^ 1024 - 2 ^ 970) by (by vm_compute).
  lia.
Qed.

Lemma parseInt_digits d s :
  0 <= d <= 9 ->
  parseInt (String (digitChar d) s)
  = match scanDigits None (String (digitChar d) s) with
    | None => NaN
    | Some m => ofInteger m
    end.
Proof.
  intros Hd.
  destruct (digit_cases d Hd) as [->|[->|[->|[->|[->|[->|[->|[->|[->| ->]]]]]]]]];
    reflexivity.
Qed.

Lemma parseInt_decimal v :
  0 <= v -> parseInt (decimal v) = ofInteger v.
Proof.
  intros Hv.
  destruct (digitsOnto_head (S (Z.to_nat (Z.log2 v))) v "" Hv ltac:(lia))
    as (d & s & Hd & Hs).
  pose proof (scanDigits_decimal v Hv) as Hscan.
  unfold decimal in *. rewrite Hs in *.
  by rewrite (parseInt_digits d s Hd), Hscan.
Qed.

Lemma parseInt_minus_decimal v :
  0 <= v -> parseInt (String "-" (decimal v)) = ofInteger (- v).
Proof.
  intros Hv.
  change (parseInt (String "-" (decimal v)))
    with (match scanDigits None (decimal v) with
          | None => NaN
          | Some m => ofInteger (- m)
          end).
  by rewrite (scanDigits_decimal v Hv).
Qed.

(** The key of a chat id in plain digits reads back as the chat id. *)
Lemma parseInt_toString n :
  isNumber n -> Z.abs n < 10 ^ 21 -> parseInt (toString n) = Finite n.
Proof.
  intros Hnum Hlt. unfold toString.
  destruct (shortest_spec (Z.abs n) ltac:(lia) (isNumber_abs n Hnum)) as [Hr [Hlo Hhi]].
  destruct (Z.ltb_spec (Z.abs n) (10 ^ 21)) as [_|]; [|lia].
  destruct (Z.ltb_spec n 0) as [Hneg|Hpos].
  - rewrite (parseInt_minus_decimal _ Hlo). unfold ofInteger.
    rewrite Z.abs_opp, Z.abs_eq by done.
    destruct (Z.ltb_spec (shortest (Z.abs n)) (2 ^ 1024 - 2 ^ 970)); [|lia].
    rewrite roundToDouble_opp, Hr. f_equal. lia.
  - rewrite (parseInt_decimal _ Hlo). unfold ofInteger.
    rewrite Z.abs_eq by done.
    destruct (Z.ltb_spec (shortest (Z.abs n)) (2 ^ 1024 - 2 ^ 970)); [|lia].
    rewrite Hr. f_equal. lia.
Qed.

End JsNumberFacts.

(** ** PathResolver *)

Section PathResolverFacts.

Variable home : string.
Variable existsSync : string -> bool.

Local Abbreviation resolve := (resolveWorkingDirectory home existsSync).
Local Abbreviation spliced := (splice home).

Lemma remap_splice prefix rest : remap home prefix (prefix +:+ rest) = spliced rest.
Proof.
  unfold remap, splice. rewrite JsStringFacts.slice_app.
  destruct (JsString.indexOf JsString.slash rest) as [i|] eqn:E.
  - by rewrite (JsStringFacts.slice_indexOf _ _ _ E).
  - by rewrite (JsStringFacts.indexOf_None _ _ E), JsStringFacts.app_empty_r.
Qed.

(** The loop, on a path under one of the prefixes. *)
Lemma tryPrefixes_prefixed prefix rest :
  prefix ∈ homePrefixes ->
  tryPrefixes home existsSync homePrefixes (prefix +:+ rest)
  = if existsSync (spliced rest) then Some (spliced rest) else None.
Proof.
  unfold homePrefixes. intros Hp.
  repeat (apply elem_of_cons in Hp as [->|Hp]); [| |by apply elem_of_nil in Hp].
  - cbn [tryPrefixes]. rewrite JsStringFacts.startsWith_app, remap_splice.
    destruct (existsSync (spliced rest)); [done|].
    by rewrite !JsStringFacts.app_cons.
  - cbn [tryPrefixes].
    replace (JsString.startsWith "/Users/" ("/home/" +:+ rest)) with false
      by (by rewrite !JsStringFacts.app_cons).
    rewrite JsStringFacts.startsWith_app, remap_splice.
    by destruct (existsSync (spliced rest)).
Qed.

(** The loop, on a path under neither prefix. *)
Lemma tryPrefixes_foreign storedPath :
  (forall prefix, prefix ∈ homePrefixes -> JsString.startsWith prefix storedPath = false) ->
  tryPrefixes home existsSync homePrefixes storedPath = None.
Proof.
  intros H. unfold homePrefixes in *. cbn [tryPrefixes].
  rewrite (H "/Users/"), (H "/home/"); [done| |]; set_solver.
Qed.

(** C4. [resolveWorkingDirectory] is a total function of the stored path
    and the machine, with three outcomes: a stored path that exists is
    returned unchanged; otherwise, when the path is one of the two home
    prefixes followed by [rest] and the remainder of [rest] after the
    username segment, spliced onto the current home directory, exists, that
    spliced path is returned; otherwise, when no such spliced path exists,
    the current home directory is returned. *)
Theorem resolveWorkingDirectory_cases storedPath :
  (existsSync storedPath = true -> resolve storedPath = storedPath)
  /\ (existsSync storedPath = false ->
      forall prefix rest,
        prefix ∈ homePrefixes -> storedPath = prefix +:+ rest ->
        existsSync (spliced rest) = true ->
        resolve storedPath = spliced rest)
  /\ (existsSync storedPath = false ->
      (forall prefix rest,
         prefix ∈ homePrefixes -> storedPath = prefix +:+ rest ->
         existsSync (spliced rest) = false) ->
      resolve storedPath = home).
Proof.
  unfold resolveWorkingDirectory. split; [|split].
  - by intros ->.
  - intros -> prefix rest Hp -> Hex.
    by rewrite (tryPrefixes_prefixed _ _ Hp), Hex.
  - intros -> Hnone.
    destruct (tryPrefixes home existsSync homePrefixes storedPath) as [r|] eqn:E; [|done].
    exfalso.
    assert (exists prefix, prefix ∈ homePrefixes
                           /\ JsString.startsWith prefix storedPath = true) as (prefix & Hp & Hs).
    { destruct (JsString.startsWith "/Users/" storedPath) eqn:E1.
      - exists "/Users/". split; [set_solver|done].
      - destruct (JsString.startsWith "/home/" storedPath) eqn:E2.
        + exists "/home/". split; [set_solver|done].
        + rewrite tryPrefixes_foreign in E; [done|].
          intros q Hq. unfold homePrefixes in Hq.
          repeat (apply elem_of_cons in Hq as [->|Hq]); [done..|].
          by apply elem_of_nil in Hq. }
    apply JsStringFacts.startsWith_inv in Hs.
    specialize (Hnone _ _ Hp Hs).
    rewrite Hs, (tryPrefixes_prefixed _ _ Hp), Hnone in E. done.
Qed.

End PathResolverFacts.

(** ** HistoryStore *)

Local Abbreviation ids := (fmap (M := list) conversationId).

Lemma findIndex_Some conv l i :
  findIndex conv l = Some i ->
  exists e, l !! i = Some e /\ conversationId e = conv
            /\ (conv ∉ ids (take i l)).
Proof.
  revert i. induction l as [|a l IH]; intros i H; simpl in H; [done|].
  destruct (String.eqb_spec (conversationId a) conv) as [Heq|Hne].
  - inversion H; subst. exists a. split; [done|]. split; [done|].
    apply not_elem_of_nil.
  - destruct (findIndex conv l) as [j|]; simpl in H; [|done].
    inversion H; subst. destruct (IH j eq_refl) as (e & He & Hc & Hn).
    exists e. split; [done|]. split; [done|]. simpl.
    apply not_elem_of_cons. split; [congruence|done].
Qed.

Lemma findIndex_None conv l : findIndex conv l = None <-> conv ∉ ids l.
Proof.
  induction l as [|a l IH]; simpl.
  { split; [intros _; apply not_elem_of_nil|done]. }
  destruct (String.eqb_spec (conversationId a) conv) as [Heq|Hne].
  - split; [done|]. intros H. exfalso. apply H. subst. apply list_elem_of_here.
  - rewrite not_elem_of_cons. destruct (findIndex conv l) as [j|]; simpl.
    + split; [done|]. intros [_ H]. by apply IH in H.
    + split; [|done]. intros _. split; [congruence|]. by apply IH.
Qed.

Lemma findIndex_is_Some conv l : conv ∈ ids l -> is_Some (findIndex conv l).
Proof.
  intros H. destruct (findIndex conv l) eqn:E; [by eexists|].
  by apply findIndex_None in E.
Qed.

Lemma find_findIndex conv l :
  List.find (fun e => String.eqb (conversationId e) conv) l
  = findIndex conv l ≫= (fun i => l !! i).
Proof.
  induction l as [|a l IH]; simpl; [done|].
  destruct (String.eqb (conversationId a) conv); [done|].
  rewrite IH. by destruct (findIndex conv l).
Qed.

Lemma kept_take (u : list SessionHistoryEntry) :
  (if (MAX_HISTORY_PER_CHAT <? length u)%nat then take MAX_HISTORY_PER_CHAT u else u)
  = take MAX_HISTORY_PER_CHAT u.
Proof.
  destruct (Nat.ltb_spec MAX_HISTORY_PER_CHAT (length u)); [done|].
  by rewrite take_ge.
Qed.

Lemma descending_mono t t' js : (t <= t')%nat -> descending t js -> descending t' js.
Proof. destruct js as [|j js]; simpl; [done|]. intros ? [? ?]. split; [lia|done]. Qed.

Lemma descending_take t n js : descending t js -> descending t (take n js).
Proof.
  revert t n. induction js as [|j js IH]; intros t [|n]; simpl; try done.
  intros [? ?]. split; [done|]. by apply IH.
Qed.

Lemma descending_below t js : descending t js -> Forall (fun j => (j < t)%nat) js.
Proof.
  revert t. induction js as [|j js IH]; intros t; simpl; [constructor|].
  intros [Hj Hd]. constructor; [done|].
  eapply Forall_impl; [by apply IH|]. simpl. lia.
Qed.

Section HistoryFacts.

Variable clock : nat -> Z.

Lemma saveSession_found c conv path preview csid w i old :
  findIndex conv (historyOf c w) = Some i ->
  historyOf c w !! i = Some old ->
  saveSession clock c conv path preview csid w
  = save (mkWorld (sessions w)
            (<[c := take MAX_HISTORY_PER_CHAT
                      (<[i := replacement clock conv path preview csid old w]> (historyOf c w))]>
               (data w))
            (disk w) (S (tick w))).
Proof.
  unfold historyOf. intros Hi Hold. unfold saveSession.
  rewrite Hi. cbn [mbind option_bind]. rewrite Hold. cbn [fst snd].
  rewrite kept_take. unfold replacement. by destruct csid.
Qed.

Lemma saveSession_fresh c conv path preview csid w :
  findIndex conv (historyOf c w) = None ->
  saveSession clock c conv path preview csid w
  = save (mkWorld (sessions w)
            (<[c := take MAX_HISTORY_PER_CHAT
                      (inserted clock conv path preview csid w :: historyOf c w)]>
               (data w))
            (disk w) (S (S (tick w)))).
Proof.
  unfold historyOf. intros Hi. unfold saveSession.
  rewrite Hi. cbn [mbind option_bind fst snd].
  rewrite kept_take. unfold inserted. by destruct csid.
Qed.

(** The two ways [saveSession] ends, in one statement. *)
Lemma saveSession_cases c conv path preview csid w :
  (exists i old,
      findIndex conv (historyOf c w) = Some i /\ historyOf c w !! i = Some old
      /\ conversationId old = conv
      /\ saveSession clock c conv path preview csid w
         = save (mkWorld (sessions w)
                   (<[c := take MAX_HISTORY_PER_CHAT
                             (<[i := replacement clock conv path preview csid old w]> (historyOf c w))]>
                      (data w))
                   (disk w) (S (tick w))))
  \/ ((conv ∉ ids (historyOf c w))
      /\ saveSession clock c conv path preview csid w
         = save (mkWorld (sessions w)
                   (<[c := take MAX_HISTORY_PER_CHAT
                             (inserted clock conv path preview csid w :: historyOf c w)]>
                      (data w))
                   (disk w) (S (S (tick w))))).
Proof.
  destruct (findIndex conv (historyOf c w)) as [i|] eqn:E.
  - left. destruct (findIndex_Some _ _ _ E) as (old & Hold & Hc & _).
    exists i, old. repeat split; try done. by apply saveSession_found.
  - right. split; [by apply findIndex_None|]. by apply saveSession_fresh.
Qed.

Lemma wellFormed_nil t : wellFormedHistory clock t [].
Proof.
  split; [simpl; lia|]. split; [constructor|]. by exists [].
Qed.

Lemma wellFormed_mono t t' l :
  (t <= t')%nat -> wellFormedHistory clock t l -> wellFormedHistory clock t' l.
Proof.
  intros Ht (Hlen & Hnd & js & Hjs & Hd). split; [done|]. split; [done|].
  exists js. split; [done|]. by eapply descending_mono.
Qed.

Lemma wellFormed_take t n l :
  wellFormedHistory clock t l -> wellFormedHistory clock t (take n l).
Proof.
  intros (Hlen & Hnd & js & Hjs & Hd). split; [|split].
  - rewrite length_take. lia.
  - rewrite fmap_take. eapply sublist_NoDup; [|apply sublist_take]; done.
  - exists (take n js). split; [|by apply descending_take].
    by rewrite !fmap_take, Hjs.
Qed.

(** An entry may be changed where it lies when its conversation and its
    creation stamp stay. *)
Lemma wellFormed_insert t l i old new :
  l !! i = Some old ->
  conversationId new = conversationId old -> createdAt new = createdAt old ->
  wellFormedHistory clock t l -> wellFormedHistory clock t (<[i := new]> l).
Proof.
  intros Hold Hc Ht (Hlen & Hnd & js & Hjs & Hd).
  assert (forall f : SessionHistoryEntry -> string,
             f new = f old -> f <$> <[i := new]> l = f <$> l) as Hsame.
  { intros f Hf. rewrite list_fmap_insert, Hf. apply list_insert_id.
    by rewrite list_lookup_fmap, Hold. }
  split; [by rewrite length_insert|]. split; [by rewrite Hsame|].
  exists js. by rewrite Hsame.
Qed.

(** A new conversation, created at reading [t], goes in front. *)
Lemma wellFormed_cons t l new :
  conversationId new ∉ conversationId <$> l ->
  createdAt new = isoAt clock t ->
  wellFormedHistory clock t l ->
  wellFormedHistory clock (S t) (take MAX_HISTORY_PER_CHAT (new :: l)).
Proof.
  intros Hnew Ht (Hlen & Hnd & js & Hjs & Hd). split; [|split].
  - rewrite length_take. lia.
  - rewrite fmap_take. eapply sublist_NoDup; [|apply sublist_take].
    rewrite fmap_cons. by constructor.
  - exists (take MAX_HISTORY_PER_CHAT (t :: js)). split.
    + by rewrite !fmap_take, !fmap_cons, Ht, Hjs.
    + apply descending_take. simpl. split; [lia|done].
Qed.

Lemma historyOf_Some c w l : data w !! c = Some l -> historyOf c w = l.
Proof. unfold historyOf. by intros ->. Qed.

Lemma historyOf_wellFormed c w :
  storeInv clock w -> wellFormedHistory clock (tick w) (historyOf c w).
Proof.
  intros Hinv. unfold historyOf. destruct (data w !! c) as [l|] eqn:E; simpl.
  - exact (Hinv _ _ E).
  - apply wellFormed_nil.
Qed.

(** Taking clock readings, or changing the live sessions, keeps the store
    well formed. *)
Lemma storeInv_bump w s t :
  (tick w <= t)%nat -> storeInv clock w ->
  storeInv clock (mkWorld s (data w) (disk w) t).
Proof.
  intros Ht Hinv c l Hl. simpl in *. eapply wellFormed_mono; [done|]. exact (Hinv _ _ Hl).
Qed.

Lemma storeInv_saveSession c conv path preview csid w :
  storeInv clock w -> storeInv clock (saveSession clock c conv path preview csid w).
Proof.
  intros Hinv. pose proof (historyOf_wellFormed c w Hinv) as Hwf.
  destruct (saveSession_cases c conv path preview csid w)
    as [(i & old & Hi & Hold & Hc & ->)|(Hfresh & ->)];
    intros c' l'; simpl; rewrite lookup_insert; case_decide as Hcc.
  - intros [= <-]. apply wellFormed_take.
    eapply wellFormed_mono; [|eapply wellFormed_insert; eauto]. lia.
  - intros Hl. eapply wellFormed_mono; [|exact (Hinv _ _ Hl)]. lia.
  - intros [= <-]. eapply wellFormed_mono; [|apply wellFormed_cons; eauto]. lia.
  - intros Hl. eapply wellFormed_mono; [|exact (Hinv _ _ Hl)]. lia.
Qed.

Lemma storeInv_updateEntry c conv change w :
  (forall e, conversationId (change e) = conversationId e
             /\ createdAt (change e) = createdAt e) ->
  storeInv clock w -> storeInv clock (updateEntry c conv change w).
Proof.
  intros Hch Hinv. unfold updateEntry.
  destruct (data w !! c) as [l|] eqn:El; [|done].
  destruct (findIndex conv l) as [i|] eqn:Ei; simpl; [|done].
  destruct (l !! i) as [e|] eqn:Ee; simpl; [|done].
  intros c' l'. simpl. rewrite lookup_insert. case_decide as Hcc.
  - intros [= <-]. destruct (Hch e) as [? ?].
    eapply wellFormed_mono; [|eapply wellFormed_insert; eauto]. lia.
  - intros Hl. eapply wellFormed_mono; [|exact (Hinv _ _ Hl)]. lia.
Qed.

Lemma storeInv_clearHistory c w :
  storeInv clock w -> storeInv clock (clearHistory c w).
Proof.
  intros Hinv c' l'. simpl. rewrite lookup_delete. case_decide; [done|]. apply (Hinv c' l').
Qed.

End HistoryFacts.

(** ** Sequences of calls *)

Section RunFacts.

Variable home : string.
Variable existsSync : string -> bool.
Variable clock : nat -> Z.

Local Abbreviation stepOf := (step home existsSync clock).
Local Abbreviation runOf := (run home existsSync clock).

Lemma run_snoc ops op w : runOf (ops ++ [op]) w = stepOf (runOf ops w) op.
Proof. unfold run. by rewrite foldl_app. Qed.

(** A property of the initial state that every call keeps holds after every
    sequence of calls. *)
Lemma run_invariant (P : World -> Prop) (allowed : Op -> Prop) :
  P initial ->
  (forall w op, allowed op -> P w -> P (stepOf w op)) ->
  forall ops, Forall allowed ops -> P (runOf ops initial).
Proof.
  intros H0 Hstep ops. induction ops as [|op ops IH] using rev_ind; [done|].
  intros [Hops Hop]%Forall_app. apply Forall_cons in Hop as [Hop _].
  rewrite run_snoc. apply Hstep; [done|]. by apply IH.
Qed.

Lemma storeInv_updateLastMessage c conv preview w :
  storeInv clock w -> storeInv clock (updateLastMessage clock c conv preview w).
Proof. apply storeInv_updateEntry. by intros e. Qed.

Lemma storeInv_updateClaudeSessionId c conv csid w :
  storeInv clock w -> storeInv clock (updateClaudeSessionId clock c conv csid w).
Proof. apply storeInv_updateEntry. by intros e. Qed.

Lemma storeInv_createSession c dir conv rnd w :
  storeInv clock w ->
  storeInv clock (snd (createSession home existsSync clock c dir conv rnd w)).
Proof.
  intros Hinv. unfold createSession. cbn [snd].
  apply storeInv_saveSession, storeInv_bump; [|done].
  destruct conv as [x|]; [destruct (JsString.truthy x)|]; simpl; lia.
Qed.

Lemma storeInv_resumeSession c conv w :
  storeInv clock w ->
  storeInv clock (snd (resumeSession home existsSync clock c conv w)).
Proof.
  intros Hinv. unfold resumeSession.
  destruct (getSessionByConversationId c conv w); [|done]. cbn [snd].
  apply storeInv_saveSession, storeInv_bump; [simpl; lia|done].
Qed.

Lemma storeInv_step w op : storeInv clock w -> storeInv clock (stepOf w op).
Proof.
  intros Hinv. destruct op; cbn [step].
  - by apply storeInv_saveSession.
  - by apply storeInv_updateLastMessage.
  - by apply storeInv_updateClaudeSessionId.
  - by apply storeInv_clearHistory.
  - by apply storeInv_createSession.
  - unfold updateActivity. destruct (sessions w !! chatId); [|done].
    assert (storeInv clock
              (mkWorld
                 (<[chatId := mkSession (sConversationId s) (sClaudeSessionId s)
                                (workingDirectory s) (sCreatedAt s)
                                (DateOfTime (clock (tick w)))]> (sessions w))
                 (data w) (disk w) (S (tick w)))) as H1
      by (apply storeInv_bump; [simpl; lia|done]).
    destruct messagePreview as [p|]; [|done].
    destruct (JsString.truthy p); [|done].
    by apply storeInv_updateLastMessage.
  - unfold setWorkingDirectory. destruct (sessions w !! chatId).
    + cbn [snd]. apply storeInv_saveSession, storeInv_bump; [simpl; lia|done].
    + by apply storeInv_createSession.
  - unfold clearSession. by apply storeInv_bump.
  - by apply storeInv_resumeSession.
  - unfold resumeLastSession. destruct (getLastSession chatId w); [|done].
    by apply storeInv_resumeSession.
  - unfold setClaudeSessionId. destruct (sessions w !! chatId); [|done].
    apply storeInv_updateClaudeSessionId, storeInv_bump; [simpl; lia|done].
Qed.

Lemma storeInv_run ops : storeInv clock (runOf ops initial).
Proof.
  apply (run_invariant (storeInv clock) (fun _ => True)).
  - by intros c l.
  - intros w op _. apply storeInv_step.
  - by apply Forall_true.
Qed.

End RunFacts.

(** ** The claims about HistoryStore *)

Section HistoryClaims.

Variable home : string.
Variable existsSync : string -> bool.
Variable clock : nat -> Z.

Local Abbreviation runOf := (run home existsSync clock).

Lemma historyOf_insert c l d s f t :
  historyOf c (save (mkWorld s (<[c := l]> d) f t)) = l.
Proof. unfold historyOf. simpl. by rewrite lookup_insert_eq. Qed.

Lemma descending_sorted t js : descending t js -> StronglySorted gt js.
Proof.
  revert t. induction js as [|j js IH]; intros t; simpl; [constructor|].
  intros [_ Hd]. constructor; [by eapply IH|].
  apply descending_below in Hd. apply List.Forall_forall.
  intros x Hx. rewrite Forall_forall in Hd. apply Hd. by apply list_elem_of_In.
Qed.

Lemma sorted_readings (js : list nat) :
  (forall i j, (i <= j)%nat -> clock i <= clock j) ->
  StronglySorted gt js -> StronglySorted Z.ge (clock <$> js).
Proof.
  intros Hmono. induction 1 as [|j js Hs IH Hall]; simpl; constructor; [done|].
  apply List.Forall_forall. intros x Hx.
  apply list_elem_of_In, list_elem_of_fmap in Hx as (i & -> & Hi).
  apply Z.le_ge, Hmono.
  rewrite List.Forall_forall in Hall. apply list_elem_of_In, Hall in Hi. lia.
Qed.

(** C1. After any sequence of public calls from the empty store, and for
    every chat: [getLastSession] returns the head of the chat's list (nothing
    when the chat has no history), and the list is in the reverse of the
    order of insertion: its entries were created at clock readings whose
    numbers go down strictly from the head, so that, the clock never going
    back, their creation times never go up from the head. *)
Theorem history_most_recent_first ops chat :
  let w := runOf ops initial in
  getLastSession chat w = head (historyOf chat w)
  /\ (data w !! chat = None -> getLastSession chat w = None)
  /\ exists readings,
      createdAt <$> historyOf chat w
      = (fun j => JsNumber.toISOString (clock j)) <$> readings
      /\ StronglySorted gt readings
      /\ ((forall i j, (i <= j)%nat -> clock i <= clock j) ->
          StronglySorted Z.ge (clock <$> readings)).
Proof.
  intros w. split; [|split].
  - unfold getLastSession, historyOf. by destruct (data w !! chat).
  - unfold getLastSession. by intros ->.
  - destruct (historyOf_wellFormed clock chat w (storeInv_run home existsSync clock ops))
      as (_ & _ & js & Hjs & Hd).
    exists js. split; [done|].
    pose proof (descending_sorted _ _ Hd) as Hs. split; [done|].
    intros Hmono. by apply sorted_readings.
Qed.

(** C3. [saveSession] for a conversation the chat's list already has writes
    a new entry over the first one of that conversation, with the creation
    stamp of the old one and, when the call gives no assistant session id,
    the old one's; the list does not grow, and a list within the cap is
    otherwise unchanged, at the same length (a longer one is cut to the
    cap). For a conversation the list does not have, the new entry is put
    at the head (and the list cut to the cap). *)
Theorem saveSession_upsert c conv path preview csid w :
  let l := historyOf c w in
  let l' := historyOf c (saveSession clock c conv path preview csid w) in
  (conv ∈ conversationId <$> l ->
   exists i old new,
     l !! i = Some old /\ conversationId old = conv
     /\ (conv ∉ conversationId <$> take i l)
     /\ conversationId new = conv
     /\ createdAt new = createdAt old
     /\ (csid = None -> claudeSessionId new = claudeSessionId old)
     /\ (forall x, csid = Some x -> claudeSessionId new = Some x)
     /\ projectPath new = path
     /\ l' = take MAX_HISTORY_PER_CHAT (<[i := new]> l)
     /\ (length l' <= length l)%nat
     /\ ((length l <= MAX_HISTORY_PER_CHAT)%nat ->
         l' = <[i := new]> l /\ length l' = length l))
  /\ ((conv ∉ conversationId <$> l) ->
      exists new,
        l' = take MAX_HISTORY_PER_CHAT (new :: l) /\ head l' = Some new
        /\ conversationId new = conv /\ claudeSessionId new = csid
        /\ projectPath new = path).
Proof.
  intros l l'. subst l l'.
  destruct (saveSession_cases clock c conv path preview csid w)
    as [(i & old & Hi & Hold & Hc & ->)|(Hfresh & ->)];
    rewrite historyOf_insert; split.
  - intros _. destruct (findIndex_Some _ _ _ Hi) as (old' & Hold' & _ & Hfirst).
    exists i, old, (replacement clock conv path preview csid old w).
    do 4 (split; [done|]). split; [done|].
    split; [by intros ->|]. split; [by intros x ->|].
    split; [done|]. split; [done|]. split.
    + rewrite length_take, length_insert. lia.
    + intros Hlen.
      rewrite (take_ge (<[i := _]> _)) by (rewrite length_insert; lia).
      by rewrite length_insert.
  - intros Hn. apply findIndex_None in Hn. congruence.
  - by intros Hin.
  - intros _. exists (inserted clock conv path preview csid w). by repeat split.
Qed.

(** C5. A chat's list never has more than 20 entries: after any sequence of
    public calls from the empty store, and after [saveSession] from any
    state at all. When the list has 20 entries, [saveSession] for a
    conversation it does not have puts the new entry in front, keeps the
    first 19 in their order and drops the last one. *)
Theorem history_capped :
  (forall ops c, (length (historyOf c (runOf ops initial)) <= 20)%nat)
  /\ (forall c conv path preview csid w,
        (length (historyOf c (saveSession clock c conv path preview csid w)) <= 20)%nat)
  /\ (forall c conv path preview csid w,
        length (historyOf c w) = 20%nat ->
        conv ∉ conversationId <$> historyOf c w ->
        exists new kept oldest,
          historyOf c w = kept ++ [oldest]
          /\ conversationId new = conv
          /\ historyOf c (saveSession clock c conv path preview csid w) = new :: kept).
Proof.
  split; [|split].
  - intros ops c.
    by destruct (historyOf_wellFormed clock c _ (storeInv_run home existsSync clock ops))
      as (Hlen & _).
  - intros c conv path preview csid w.
    destruct (saveSession_cases clock c conv path preview csid w)
      as [(i & old & _ & _ & _ & ->)|(_ & ->)];
      rewrite historyOf_insert, length_take; unfold MAX_HISTORY_PER_CHAT; lia.
  - intros c conv path preview csid w Hlen Hfresh.
    apply findIndex_None in Hfresh.
    rewrite (saveSession_fresh clock _ _ _ _ _ _ Hfresh), historyOf_insert.
    destruct (historyOf c w) as [|e l] using rev_ind; [done|].
    rewrite length_app in Hlen. simpl in Hlen.
    exists (inserted clock conv path preview csid w), l, e.
    split; [done|]. split; [done|].
    unfold MAX_HISTORY_PER_CHAT. cbn [take]. f_equal.
    rewrite take_app_length'; [done|lia].
Qed.

End HistoryClaims.

(** ** SessionManager *)

Lemma findIndex_ids conv (l l' : list SessionHistoryEntry) :
  ids l = ids l' -> findIndex conv l = findIndex conv l'.
Proof.
  revert l'. induction l as [|a l IH]; intros [|b l'] H; simpl in *; try done.
  inversion H as [[Hab Hl]]. rewrite Hab, (IH l' Hl). done.
Qed.

Lemma ids_insert_same (l : list SessionHistoryEntry) i old new :
  l !! i = Some old -> conversationId new = conversationId old ->
  ids (<[i := new]> l) = ids l.
Proof.
  intros Hold Hc. rewrite list_fmap_insert, Hc. apply list_insert_id.
  by rewrite list_lookup_fmap, Hold.
Qed.

Section ManagerFacts.

Variable home : string.
Variable existsSync : string -> bool.
Variable clock : nat -> Z.

Local Abbreviation resolve := (resolveWorkingDirectory home existsSync).

Lemma getSessionByConversationId_found c conv w i e :
  findIndex conv (historyOf c w) = Some i -> historyOf c w !! i = Some e ->
  getSessionByConversationId c conv w = Some e.
Proof.
  intros Hi He. unfold getSessionByConversationId.
  rewrite find_findIndex, Hi. done.
Qed.

Lemma getSessionByConversationId_None c conv w :
  conv ∉ ids (historyOf c w) -> getSessionByConversationId c conv w = None.
Proof.
  intros H. apply findIndex_None in H. unfold getSessionByConversationId.
  by rewrite find_findIndex, H.
Qed.

Lemma saveSession_sessions c conv path preview csid w :
  sessions (saveSession clock c conv path preview csid w) = sessions w.
Proof. done. Qed.

Lemma saveSession_other c c' conv path preview csid w :
  c' ≠ c ->
  historyOf c' (saveSession clock c conv path preview csid w) = historyOf c' w.
Proof.
  intros Hne. unfold historyOf, saveSession. simpl. by rewrite lookup_insert_ne.
Qed.

(** What [saveSession] leaves in the list of its chat, when the list was
    within the cap: the entry it wrote is the one a lookup of the
    conversation finds. *)
Lemma saveSession_lookup c conv path preview csid w :
  (length (historyOf c w) <= MAX_HISTORY_PER_CHAT)%nat ->
  exists e, getSessionByConversationId c conv
              (saveSession clock c conv path preview csid w) = Some e
            /\ conversationId e = conv /\ projectPath e = path.
Proof.
  intros Hlen.
  destruct (saveSession_cases clock c conv path preview csid w)
    as [(i & old & Hi & Hold & Hc & ->)|(Hfresh & ->)].
  - exists (replacement clock conv path preview csid old w). split; [|done].
    eapply getSessionByConversationId_found; rewrite historyOf_insert;
      rewrite take_ge by (rewrite length_insert; lia).
    + rewrite <- Hi. apply findIndex_ids, ids_insert_same with old; done.
    + apply list_lookup_insert_eq. by eapply lookup_lt_Some.
  - exists (inserted clock conv path preview csid w). split; [|done].
    unfold getSessionByConversationId. rewrite historyOf_insert.
    unfold MAX_HISTORY_PER_CHAT. cbn [take List.find inserted conversationId].
    by rewrite String.eqb_refl.
Qed.

Lemma getSessionByConversationId_elem c conv w e :
  getSessionByConversationId c conv w = Some e ->
  e ∈ historyOf c w /\ conversationId e = conv.
Proof.
  unfold getSessionByConversationId. intros H.
  apply List.find_some in H as [Hin Heq].
  split; [by apply list_elem_of_In|]. by apply String.eqb_eq.
Qed.

Lemma saveSession_has c conv path preview csid w :
  (length (historyOf c w) <= MAX_HISTORY_PER_CHAT)%nat ->
  conv ∈ ids (historyOf c (saveSession clock c conv path preview csid w)).
Proof.
  intros Hlen.
  destruct (saveSession_lookup c conv path preview csid w Hlen) as (e & He & _).
  apply getSessionByConversationId_elem in He as [Hin <-].
  by apply list_elem_of_fmap_2.
Qed.

Lemma updateEntry_sessions c conv change w :
  sessions (updateEntry c conv change w) = sessions w.
Proof.
  unfold updateEntry. destruct (data w !! c) as [l|]; [|done].
  by destruct (findIndex conv l ≫= (fun i => pair i <$> l !! i)) as [[i e]|].
Qed.

Lemma updateEntry_ids c c' conv change w :
  (forall e, conversationId (change e) = conversationId e) ->
  ids (historyOf c' (updateEntry c conv change w)) = ids (historyOf c' w).
Proof.
  intros Hch. unfold updateEntry.
  destruct (data w !! c) as [l|] eqn:El; [|done].
  destruct (findIndex conv l) as [i|] eqn:Ei; simpl; [|done].
  destruct (l !! i) as [e|] eqn:Ee; simpl; [|done].
  unfold historyOf. simpl. rewrite lookup_insert. case_decide as Hcc; [|done].
  subst c'. rewrite El. simpl. by apply ids_insert_same with e.
Qed.

(** The live session of chat [c] is replaced and its conversation saved. *)
Lemma liveInv_saveSession c conv path preview csid w s' t :
  liveInv w -> (length (historyOf c w) <= MAX_HISTORY_PER_CHAT)%nat ->
  sConversationId s' = conv ->
  liveInv (saveSession clock c conv path preview csid
             (mkWorld (<[c := s']> (sessions w)) (data w) (disk w) t)).
Proof.
  intros Hlive Hlen Hs c0 s0. rewrite saveSession_sessions. simpl.
  rewrite lookup_insert. case_decide as Hcc.
  - intros [= <-]. subst c0. rewrite Hs. by apply saveSession_has.
  - intros H0. rewrite saveSession_other by done. by apply Hlive.
Qed.

(** The live session of chat [c] keeps its conversation and an entry is
    changed where it lies. *)
Lemma liveInv_updateEntry c conv change w s s' t :
  liveInv w -> (forall e, conversationId (change e) = conversationId e) ->
  sessions w !! c = Some s -> sConversationId s' = sConversationId s ->
  liveInv (updateEntry c conv change
             (mkWorld (<[c := s']> (sessions w)) (data w) (disk w) t)).
Proof.
  intros Hlive Hch Hs Hs' c0 s0. rewrite updateEntry_sessions. simpl.
  rewrite (updateEntry_ids _ _ _ _ _ Hch).
  rewrite lookup_insert. case_decide as Hcc.
  - intros [= <-]. subst c0. rewrite Hs'. by apply Hlive.
  - by apply Hlive.
Qed.

Lemma liveInv_replace c w s s' t :
  liveInv w -> sessions w !! c = Some s -> sConversationId s' = sConversationId s ->
  liveInv (mkWorld (<[c := s']> (sessions w)) (data w) (disk w) t).
Proof.
  intros Hlive Hs Hs' c0 s0. simpl. rewrite lookup_insert. case_decide as Hcc.
  - intros [= <-]. subst c0. rewrite Hs'. by apply Hlive.
  - by apply Hlive.
Qed.

Lemma liveInv_resumeSession c conv w :
  storeInv clock w -> liveInv w ->
  liveInv (snd (resumeSession home existsSync clock c conv w)).
Proof.
  intros Hstore Hlive. unfold resumeSession.
  destruct (getSessionByConversationId c conv w) as [e|] eqn:E; [|done].
  cbn [snd]. apply getSessionByConversationId_elem in E as [_ Hc].
  apply liveInv_saveSession; [done| |done].
  by destruct (historyOf_wellFormed clock c w Hstore).
Qed.

Lemma liveInv_step w op :
  isManagerOp op = true -> storeInv clock w -> liveInv w ->
  liveInv (step home existsSync clock w op).
Proof.
  intros Hop Hstore Hlive.
  assert (forall c, (length (historyOf c w) <= MAX_HISTORY_PER_CHAT)%nat) as Hlen
    by (intros c; by destruct (historyOf_wellFormed clock c w Hstore)).
  destruct op; try done; cbn [step].
  - unfold createSession. cbn [snd]. by apply liveInv_saveSession.
  - unfold updateActivity. destruct (sessions w !! chatId) as [s|] eqn:Es; [|done].
    destruct messagePreview as [p|]; [destruct (JsString.truthy p)|].
    + by eapply liveInv_updateEntry.
    + by eapply liveInv_replace.
    + by eapply liveInv_replace.
  - unfold setWorkingDirectory. destruct (sessions w !! chatId) as [s|] eqn:Es.
    + cbn [snd]. by apply liveInv_saveSession.
    + unfold createSession. cbn [snd]. by apply liveInv_saveSession.
  - intros c0 s0. unfold clearSession. simpl. rewrite lookup_delete.
    case_decide; [done|]. by apply Hlive.
  - by apply liveInv_resumeSession.
  - unfold resumeLastSession. destruct (getLastSession chatId w); [|done].
    by apply liveInv_resumeSession.
  - unfold setClaudeSessionId. destruct (sessions w !! chatId) as [s|] eqn:Es; [|done].
    by eapply liveInv_updateEntry.
Qed.

End ManagerFacts.

(** ** The claims about SessionManager *)

Section ManagerClaims.

Variable home : string.
Variable existsSync : string -> bool.
Variable clock : nat -> Z.

Local Abbreviation resolve := (resolveWorkingDirectory home existsSync).
Local Abbreviation resume := (resumeSession home existsSync clock).

(** [resumeSession] on a conversation found at place [i], written out. *)
Lemma resumeSession_found c conv w i entry :
  findIndex conv (historyOf c w) = Some i ->
  historyOf c w !! i = Some entry ->
  let session :=
    mkSession (conversationId entry) (claudeSessionId entry)
      (resolve (projectPath entry)) (DateOfString (createdAt entry))
      (DateOfTime (clock (tick w))) in
  let w1 := mkWorld (<[c := session]> (sessions w)) (data w) (disk w) (S (tick w)) in
  let entry' :=
    replacement clock conv (resolve (projectPath entry)) (lastMessagePreview entry)
      (claudeSessionId entry) entry w1 in
  resume c conv w
  = (Some session,
     save (mkWorld (<[c := session]> (sessions w))
             (<[c := take MAX_HISTORY_PER_CHAT (<[i := entry']> (historyOf c w))]> (data w))
             (disk w) (S (S (tick w))))).
Proof.
  intros Hi He session w1 entry'.
  unfold resumeSession. rewrite (getSessionByConversationId_found c conv w i entry Hi He).
  fold session. fold w1. f_equal.
  assert (historyOf c w1 = historyOf c w) as Hh by done.
  rewrite <- Hh in Hi, He.
  by rewrite (saveSession_found clock _ _ _ _ _ _ _ _ Hi He), Hh.
Qed.

(** C6. [resumeSession] for a conversation the chat's history does not have
    returns nothing and leaves the whole state as it was: live sessions,
    history, file and clock readings taken. *)
Theorem resumeSession_unknown c conv w :
  conv ∉ conversationId <$> historyOf c w ->
  resume c conv w = (None, w).
Proof.
  intros H. unfold resumeSession.
  by rewrite getSessionByConversationId_None.
Qed.

(** C7. [resumeSession] for a conversation the chat's history has returns a
    live session made from the first entry of that conversation: same
    conversation and assistant session ids, the creation date read from the
    entry's stamp, the activity date read from the clock, and the entry's
    path resolved as working directory. The session is the chat's live
    session afterwards, and the entry is overwritten where it lies by one
    with the resolved path (the list within the cap keeps all its other
    entries; a longer list is cut to the cap). *)
Theorem resumeSession_known c conv w :
  conv ∈ conversationId <$> historyOf c w ->
  exists i entry session w',
    historyOf c w !! i = Some entry
    /\ conversationId entry = conv
    /\ (conv ∉ conversationId <$> take i (historyOf c w))
    /\ resume c conv w = (Some session, w')
    /\ sConversationId session = conversationId entry
    /\ sClaudeSessionId session = claudeSessionId entry
    /\ sCreatedAt session = DateOfString (createdAt entry)
    /\ sLastActivity session = DateOfTime (clock (tick w))
    /\ workingDirectory session = resolve (projectPath entry)
    /\ getSession c w' = Some session
    /\ exists entry',
        conversationId entry' = conv
        /\ projectPath entry' = resolve (projectPath entry)
        /\ createdAt entry' = createdAt entry
        /\ claudeSessionId entry' = claudeSessionId entry
        /\ historyOf c w'
           = take MAX_HISTORY_PER_CHAT (<[i := entry']> (historyOf c w))
        /\ ((length (historyOf c w) <= MAX_HISTORY_PER_CHAT)%nat ->
            historyOf c w' = <[i := entry']> (historyOf c w)).
Proof.
  intros Hin. destruct (findIndex_is_Some _ _ Hin) as [i Hi].
  destruct (findIndex_Some _ _ _ Hi) as (entry & He & Hc & Hfirst).
  pose proof (resumeSession_found c conv w i entry Hi He) as Hres.
  cbv zeta in Hres.
  eexists i, entry, _, _. do 3 (split; [done|]). split; [exact Hres|].
  do 5 (split; [done|]). split.
  { unfold getSession. simpl. by rewrite lookup_insert_eq. }
  eexists. rewrite historyOf_insert.
  split; [|split; [|split; [|split; [|split; [reflexivity|]]]]].
  - done.
  - done.
  - done.
  - simpl. by destruct (claudeSessionId entry).
  - intros Hlen. apply take_ge. rewrite length_insert. lia.
Qed.

(** C8. [setWorkingDirectory] on a chat with a live session keeps the
    session but for its working directory, which becomes the directory as
    given, and its activity date; the change is saved to the history under
    the session's conversation with the same unresolved directory (so that
    a lookup in a list within the cap finds it), and written to the file.
    On a chat without a live session the call is [createSession] with no
    conversation id, whose working directory is the resolved directory. *)
Theorem setWorkingDirectory_cases c directory rnd w :
  (forall existing,
      getSession c w = Some existing ->
      exists session w',
        setWorkingDirectory home existsSync clock c directory rnd w = (session, w')
        /\ session = mkSession (sConversationId existing) (sClaudeSessionId existing)
                       directory (sCreatedAt existing) (DateOfTime (clock (tick w)))
        /\ getSession c w' = Some session
        /\ w' = saveSession clock c (sConversationId existing) directory ""
                  (sClaudeSessionId existing)
                  (mkWorld (<[c := session]> (sessions w)) (data w) (disk w) (S (tick w)))
        /\ disk w' = Document (dataToJSON (data w'))
        /\ ((length (historyOf c w) <= MAX_HISTORY_PER_CHAT)%nat ->
            exists e, getSessionByConversationId c (sConversationId existing) w' = Some e
                      /\ projectPath e = directory))
  /\ (getSession c w = None ->
      setWorkingDirectory home existsSync clock c directory rnd w
      = createSession home existsSync clock c directory None rnd w
      /\ workingDirectory (fst (createSession home existsSync clock c directory None rnd w))
         = resolve directory).
Proof.
  unfold getSession, setWorkingDirectory. split.
  - intros existing ->. eexists _, _. split; [reflexivity|].
    split; [done|]. split; [by simpl; rewrite lookup_insert_eq|].
    split; [done|]. split; [done|].
    intros Hlen.
    edestruct (saveSession_lookup clock c (sConversationId existing) directory ""
                 (sClaudeSessionId existing)) as (e & He & _ & Hp); [|eauto].
    done.
  - by intros ->.
Qed.

(** C9. [resumeSession] for a conversation that is in the chat's list (the
    list within the cap) but not at its head overwrites that conversation's
    entry where it lies. The place written is the one of the first entry of
    the conversation, which is below the head; the entry written there has
    the conversation's id, the old entry's assistant session id, creation
    stamp and preview, the old path resolved (with its last segment as
    name) and the time of the call as last activity. The conversations keep
    their positions and every other entry is as before, the head among
    them: [getLastSession] still returns that head, and a following
    [resumeLastSession] resumes the head's conversation, not the one just
    resumed. *)
Theorem resumeSession_keeps_order c conv w first rest :
  historyOf c w = first :: rest ->
  conversationId first ≠ conv ->
  conv ∈ conversationId <$> rest ->
  (length (historyOf c w) <= MAX_HISTORY_PER_CHAT)%nat ->
  let w' := snd (resume c conv w) in
  conversationId <$> historyOf c w' = conversationId <$> historyOf c w
  /\ (exists i old entry',
        rest !! i = Some old
        /\ conversationId old = conv
        /\ (conv ∉ conversationId <$> take i rest)
        /\ findIndex conv (historyOf c w) = Some (S i)
        /\ entry' = mkEntry conv (claudeSessionId old) (resolve (projectPath old))
                      (JsString.basename (resolve (projectPath old)))
                      (JsString.substring0 100 (lastMessagePreview old))
                      (createdAt old) (isoAt clock (S (tick w)))
        /\ historyOf c w' = <[S i := entry']> (historyOf c w)
        /\ historyOf c w' = first :: <[i := entry']> rest
        /\ historyOf c w' !! S i = Some entry'
        /\ (forall j, j ≠ S i -> historyOf c w' !! j = historyOf c w !! j)
        /\ fst (resume c conv w)
           = Some (mkSession conv (claudeSessionId old) (resolve (projectPath old))
                     (DateOfString (createdAt old)) (DateOfTime (clock (tick w)))))
  /\ head (historyOf c w') = Some first
  /\ getLastSession c w' = Some first
  /\ exists session w'',
      resumeLastSession home existsSync clock c w' = (Some session, w'')
      /\ sConversationId session = conversationId first
      /\ sConversationId session ≠ conv
      /\ sClaudeSessionId session = claudeSessionId first
      /\ workingDirectory session = resolve (projectPath first)
      /\ head (historyOf c w'') ≫= (Some ∘ conversationId) = Some (conversationId first).
Proof.
  intros Hl Hne Hin Hlen w'.
  assert (conv ∈ conversationId <$> historyOf c w) as Hin'
    by (rewrite Hl, fmap_cons; by apply list_elem_of_further).
  destruct (findIndex_is_Some _ _ Hin') as [i Hi].
  destruct (findIndex_Some _ _ _ Hi) as (entry & He & Hc & Hfirst).
  pose proof (resumeSession_found c conv w i entry Hi He) as Hres. cbv zeta in Hres.
  subst w'. rewrite Hres. cbn [fst snd].
  set (entry' := replacement _ _ _ _ _ _ _) in *.
  set (w1 := save _) in *.
  assert (historyOf c w1 = <[i := entry']> (historyOf c w)) as Hplace.
  { subst w1. rewrite historyOf_insert. apply take_ge. rewrite length_insert. lia. }
  destruct i as [|i].
  { rewrite Hl in He. simpl in He. congruence. }
  assert (conversationId <$> historyOf c w1 = conversationId <$> historyOf c w) as Hids.
  { rewrite Hplace. by apply ids_insert_same with entry. }
  assert (head (historyOf c w1) = Some first) as Hhead
    by (by rewrite Hplace, Hl).
  assert (getLastSession c w1 = Some first) as Hlast.
  { unfold getLastSession. unfold historyOf in Hhead.
    destruct (data w1 !! c); [done|]. by simpl in Hhead. }
  assert (entry' = mkEntry conv (claudeSessionId entry) (resolve (projectPath entry))
                     (JsString.basename (resolve (projectPath entry)))
                     (JsString.substring0 100 (lastMessagePreview entry))
                     (createdAt entry) (isoAt clock (S (tick w)))) as Hentry.
  { subst entry'. unfold replacement. simpl. by destruct (claudeSessionId entry). }
  split; [done|]. split.
  { exists i, entry, entry'.
    split; [by rewrite Hl in He|]. split; [done|]. split.
    { intros Hx. apply Hfirst. rewrite Hl. change (take (S i) (first :: rest))
        with (first :: take i rest). rewrite fmap_cons.
      by apply list_elem_of_further. }
    split; [done|]. split; [done|]. split; [done|].
    split; [by rewrite Hplace, Hl|]. split.
    { rewrite Hplace. apply list_lookup_insert_eq. by eapply lookup_lt_Some. }
    split; [|by rewrite Hc].
    intros j Hj. rewrite Hplace. by apply list_lookup_insert_ne. }
  split; [done|]. split; [done|].
  unfold resumeLastSession. rewrite Hlast.
  assert (findIndex (conversationId first) (historyOf c w1) = Some 0%nat) as Hi1.
  { rewrite (findIndex_ids _ _ _ Hids), Hl. simpl. by rewrite String.eqb_refl. }
  assert (historyOf c w1 !! 0%nat = Some first) as He1
    by (by rewrite <- head_lookup).
  pose proof (resumeSession_found c (conversationId first) w1 0 first Hi1 He1) as Hres1.
  cbv zeta in Hres1. eexists _, _. split; [exact Hres1|].
  do 4 (split; [done|]).
  rewrite historyOf_insert.
  destruct (historyOf c w1) as [|h t] eqn:Eh; [done|].
  injection Hhead as ->. reflexivity.
Qed.

(** C10. After any sequence of calls of SessionManager from the empty
    state, a chat that has a live session has, in its history, an entry of
    that session's conversation. *)
Theorem live_session_in_history ops c session :
  forallb isManagerOp ops = true ->
  getSession c (run home existsSync clock ops initial) = Some session ->
  exists e, e ∈ historyOf c (run home existsSync clock ops initial)
            /\ conversationId e = sConversationId session.
Proof.
  intros Hops Hs.
  assert (storeInv clock (run home existsSync clock ops initial)
          /\ liveInv (run home existsSync clock ops initial)) as [_ Hlive].
  { apply (run_invariant home existsSync clock
             (fun w => storeInv clock w /\ liveInv w) (fun op => isManagerOp op = true)).
    3:{ apply Forall_forall. intros op Hin. rewrite forallb_forall in Hops.
        by apply Hops, list_elem_of_In. }
    - split; [by intros ? ?|by intros ? ?].
    - intros w op Hop [Hstore Hlive]. split.
      + by apply storeInv_step.
      + by apply liveInv_step. }
  apply Hlive in Hs. apply list_elem_of_fmap in Hs as (e & He & Hin). by exists e.
Qed.

End ManagerClaims.

(** ** The history file *)

Lemma parseEntry_entryToJSON e : parseEntry (entryToJSON e) = Some e.
Proof. destruct e as [conv [csid|] path name preview created active]; reflexivity. Qed.

Lemma parseEntries_toJSON l : parseEntries (JArray (entryToJSON <$> l)) = Some l.
Proof. apply mapM_fmap_Some, parseEntry_entryToJSON. Qed.

Lemma parseRecord_members (kvs : list (Z * list SessionHistoryEntry)) :
  parseRecord (JObject (memberOf <$> kvs))
  = Some ((fun kv => (JsNumber.toString (fst kv), snd kv)) <$> kvs).
Proof.
  unfold parseRecord. induction kvs as [|[k l] kvs IH]; [done|].
  rewrite !fmap_cons. cbn [mapM memberOf fst snd].
  rewrite parseEntries_toJSON. cbn. by rewrite IH.
Qed.

(** Inserting one by one, first to last, the bindings of a list with no
    key twice gives the map of the list. *)
Lemma foldl_insert_list_to_map (kvs : list (Z * list SessionHistoryEntry))
    (acc : gmap Z (list SessionHistoryEntry)) :
  NoDup kvs.*1 ->
  foldl (fun m kv => <[fst kv := snd kv]> m) acc kvs = list_to_map kvs ∪ acc.
Proof.
  revert acc. induction kvs as [|[k l] kvs IH]; intros acc Hnd; simpl.
  - by rewrite (left_id_L ∅ (∪)).
  - inversion Hnd as [|? ? Hk Hnd']; subst. rewrite (IH _ Hnd').
    rewrite <- insert_union_l. symmetry. apply insert_union_r.
    by apply not_elem_of_list_to_map_1.
Qed.

Lemma loadRecord_members (kvs : list (Z * list SessionHistoryEntry)) :
  Forall (fun kv => plainChatId (fst kv)) kvs ->
  loadRecord ((fun kv => (JsNumber.toString (fst kv), snd kv)) <$> kvs)
  = foldl (fun m kv => <[fst kv := snd kv]> m) ∅ kvs.
Proof.
  unfold loadRecord. generalize (∅ : gmap Z (list SessionHistoryEntry)).
  induction kvs as [|[k l] kvs IH]; intros acc Hok; [done|].
  inversion Hok as [|? ? [Hnum Hlt] Hok']; subst. simpl in *.
  rewrite (JsNumberFacts.parseInt_toString k Hnum Hlt). by apply IH.
Qed.

(** Reading the document whose [sessions] object has the members of [kvs],
    chats with plain keys and no chat twice. *)
Lemma load_members (kvs : list (Z * list SessionHistoryEntry)) current :
  Forall (fun kv => plainChatId (fst kv)) kvs -> NoDup kvs.*1 ->
  load (Document (JObject [("sessions", JObject (memberOf <$> kvs))])) current
  = list_to_map kvs.
Proof.
  intros Hok Hnd. unfold load, safeParse.
  change (getMember "sessions" [("sessions", JObject (memberOf <$> kvs))])
    with (Some (JObject (memberOf <$> kvs))).
  cbn [mbind option_bind]. rewrite parseRecord_members.
  rewrite (loadRecord_members _ Hok), (foldl_insert_list_to_map _ _ Hnd).
  by rewrite (right_id_L ∅ (∪)).
Qed.

Lemma plain_keys (d : gmap Z (list SessionHistoryEntry)) :
  map_Forall (fun k _ => plainChatId k) d ->
  Forall (fun kv => plainChatId (fst kv)) (map_to_list d).
Proof.
  intros H. apply Forall_forall. intros [k l] Hin.
  apply elem_of_map_to_list in Hin. by apply (H k l).
Qed.

Section FileFacts.

Variable home : string.
Variable existsSync : string -> bool.
Variable clock : nat -> Z.

Lemma prim_unchanged c w : primitive clock c w w.
Proof. destruct w as [s d f t]. apply (prim_same clock c (mkWorld s d f t) s t). Qed.

Lemma prim_saveSession c conv path preview csid w :
  primitive clock c w (saveSession clock c conv path preview csid w).
Proof.
  destruct w as [s d f t].
  apply (prim_save clock c (mkWorld s d f t) s t).
Qed.

Lemma prim_updateEntry c conv change w :
  primitive clock c w (updateEntry c conv change w).
Proof.
  destruct w as [s d f t].
  apply (prim_update clock c (mkWorld s d f t) s t).
Qed.

Lemma prim_resumeSession c conv w :
  primitive clock c w (snd (resumeSession home existsSync clock c conv w)).
Proof.
  unfold resumeSession. destruct (getSessionByConversationId c conv w).
  - apply prim_save.
  - apply prim_unchanged.
Qed.

Lemma step_primitive w op :
  primitive clock (chatOf op) w (step home existsSync clock w op).
Proof.
  destruct op; cbn [step chatOf].
  - apply prim_saveSession.
  - apply prim_updateEntry.
  - apply prim_updateEntry.
  - apply prim_clear.
  - apply prim_save.
  - unfold updateActivity. destruct (sessions w !! chatId); [|apply prim_unchanged].
    destruct messagePreview as [p|]; [destruct (JsString.truthy p)|];
      first [apply prim_update | apply prim_same].
  - unfold setWorkingDirectory. destruct (sessions w !! chatId); apply prim_save.
  - apply prim_same.
  - apply prim_resumeSession.
  - unfold resumeLastSession. destruct (getLastSession chatId w).
    + apply prim_resumeSession.
    + apply prim_unchanged.
  - unfold setClaudeSessionId. destruct (sessions w !! chatId).
    + apply prim_update.
    + apply prim_unchanged.
Qed.

Lemma updateEntry_cases c conv change w :
  updateEntry c conv change w = w
  \/ exists l, updateEntry c conv change w
               = save (mkWorld (sessions w) (<[c := l]> (data w)) (disk w) (S (tick w))).
Proof.
  unfold updateEntry. destruct (data w !! c) as [l|]; [|by left].
  destruct (findIndex conv l ≫= (fun i => pair i <$> l !! i)) as [[i e]|]; [|by left].
  right. by eexists.
Qed.

Lemma saveSession_shape c conv path preview csid w :
  exists l t, saveSession clock c conv path preview csid w
              = save (mkWorld (sessions w) (<[c := l]> (data w)) (disk w) t).
Proof. unfold saveSession. by eexists _, _. Qed.

(** A call for a chat with a plain id leaves only plain ids in the history. *)
Lemma plain_primitive c w w' :
  plainChatId c -> primitive clock c w w' ->
  map_Forall (fun k _ => plainChatId k) (data w) ->
  map_Forall (fun k _ => plainChatId k) (data w').
Proof.
  intros Hc Hp Hw. destruct Hp as [s t|s t conv path preview csid|s t conv change|].
  - done.
  - destruct (saveSession_shape c conv path preview csid
                (mkWorld s (data w) (disk w) t)) as (l & t' & ->).
    simpl. by apply map_Forall_insert_2.
  - destruct (updateEntry_cases c conv change (mkWorld s (data w) (disk w) t))
      as [->|[l ->]]; [done|].
    simpl. by apply map_Forall_insert_2.
  - simpl. by apply map_Forall_delete.
Qed.

(** Every call that changes the history writes the file. *)
Lemma synced_primitive c w w' : primitive clock c w w' -> synced w -> synced w'.
Proof.
  intros Hp Hw. destruct Hp as [s t|s t conv path preview csid|s t conv change|].
  - done.
  - by left.
  - destruct (updateEntry_cases c conv change (mkWorld s (data w) (disk w) t))
      as [->|[l ->]]; [done|]. by left.
  - by left.
Qed.

Lemma run_plain_synced ops :
  Forall (fun op => plainChatId (chatOf op)) ops ->
  map_Forall (fun k _ => plainChatId k) (data (run home existsSync clock ops initial))
  /\ synced (run home existsSync clock ops initial).
Proof.
  apply (run_invariant home existsSync clock
           (fun w => map_Forall (fun k _ => plainChatId k) (data w) /\ synced w)).
  - split; [apply map_Forall_empty|by right].
  - intros w op Hop [Hplain Hsync].
    pose proof (step_primitive w op) as Hp. split.
    + by eapply plain_primitive.
    + by eapply synced_primitive.
Qed.

Lemma roundtrip_any_order (w : World) :
  map_Forall (fun chatId _ => plainChatId chatId) (data w) ->
  forall members current,
    members ≡ₚ sessionsToJSON (data w) ->
    load (Document (JObject [("sessions", JObject members)])) current = data w.
Proof.
  intros Hok%plain_keys members current Hperm.
  apply Permutation_map_inv in Hperm as (kvs & -> & Hkvs).
  rewrite load_members.
  - etrans; [|apply (list_to_map_to_list (data w))].
    apply list_to_map_proper; [|done].
    rewrite <- Hkvs. apply NoDup_fst_map_to_list.
  - by rewrite <- Hkvs.
  - rewrite <- Hkvs. apply NoDup_fst_map_to_list.
Qed.

(** X25. When every chat id of the history is a number below
    [10^21] in magnitude, the file [save] writes reads back as the same
    history: the same chats, each with the same entries in the same order
    and with the same fields, an absent assistant session id staying absent;
    and this in whatever order the chats are written in the file. So it is
    for the states the public calls build from the empty store for such
    chat ids, whose file is at every moment one that reads back as the
    history in memory. *)
Theorem save_load_roundtrip :
  (forall w,
      map_Forall (fun chatId _ => plainChatId chatId) (data w) ->
      data (restart (save w)) = data w
      /\ forall members current,
          members ≡ₚ sessionsToJSON (data w) ->
          load (Document (JObject [("sessions", JObject members)])) current = data w)
  /\ (forall ops,
        Forall (fun op => plainChatId (chatOf op)) ops ->
        data (restart (save (run home existsSync clock ops initial)))
        = data (run home existsSync clock ops initial)
        /\ data (restart (run home existsSync clock ops initial))
           = data (run home existsSync clock ops initial)).
Proof.
  assert (forall w, map_Forall (fun chatId _ => plainChatId chatId) (data w) ->
                    data (restart (save w)) = data w) as Hsave.
  { intros w Hok. by apply (roundtrip_any_order w Hok). }
  split.
  - intros w Hok. split; [by apply Hsave|]. by apply roundtrip_any_order.
  - intros ops Hops. destruct (run_plain_synced ops Hops) as [Hplain Hsync].
    split; [by apply Hsave|].
    destruct Hsync as [Hdisk|[Hdisk Hdata]].
    + unfold restart. simpl. rewrite Hdisk. exact (Hsave _ Hplain).
    + unfold restart. simpl. by rewrite Hdisk, Hdata.
Qed.

End FileFacts.

(** ** The claims on the sample run *)

Example sample_history : historyOf 42 sampleWorld = [sampleSecond; sampleFirst].
Proof. vm_compute. reflexivity. Qed.

Example sample_live : getSession 42 sampleWorld = Some sampleLive.
Proof. vm_compute. reflexivity. Qed.

(** The scenario of the specification: a path stored under [/Users/alice]
    lands under the current home, in the session and in the history. *)
Example sample_scenario :
  let r := createSession bobHome bobFs bobClock 42 "/Users/alice/proj" None "k3x9q2a" initial in
  workingDirectory (fst r) = "/home/bob/proj"
  /\ projectPath <$> historyOf 42 (snd r) = ["/home/bob/proj"].
Proof. vm_compute. split; reflexivity. Qed.

(** C2. The round trip fails at the chat id [10^21], an integer a number
    holds: [saveSession] keeps its history under the key [String(1e21)],
    which is [1e+21]; [save] writes that key, and [load] reads it back with
    [parseInt], which stops at the [e] and gives 1. After the reload the
    entries are the history of chat 1, and chat [10^21] has none. *)
Lemma roundtrip_fails_at_1e21 :
  let before := run bobHome bobFs bobClock
                  [CallSaveSession (10 ^ 21) "c1" "/home/bob/proj" "" None] initial in
  let after := restart (save before) in
  JsNumber.isNumber (10 ^ 21)
  /\ JsNumber.toString (10 ^ 21) = "1e+21"
  /\ JsNumber.parseInt "1e+21" = JsNumber.Finite 1
  /\ data after ≠ data before
  /\ length (historyOf (10 ^ 21) before) = 1%nat
  /\ historyOf (10 ^ 21) after = []
  /\ historyOf 1 before = []
  /\ historyOf 1 after = historyOf (10 ^ 21) before.
Proof.
  cbv zeta.
  split; [by vm_compute|]. split; [by vm_compute|]. split; [by vm_compute|].
  split.
  { intros H. apply (f_equal (fun m => m !! 1)) in H. vm_compute in H. discriminate H. }
  repeat split; by vm_compute.
Qed.

Lemma sample_plain : Forall (fun op => plainChatId (chatOf op)) sampleOps.
Proof. repeat constructor; vm_compute; done. Qed.

Lemma save_load_roundtrip_witness :
  Forall (fun op => plainChatId (chatOf op)) sampleOps
  /\ data (restart sampleWorld) = data sampleWorld.
Proof.
  split; [exact sample_plain|].
  exact (proj2 (proj2 (save_load_roundtrip bobHome bobFs bobClock) sampleOps sample_plain)).
Defined.

Lemma history_most_recent_first_witness :
  getLastSession 42 sampleWorld = head (historyOf 42 sampleWorld).
Proof.
  exact (proj1 (history_most_recent_first bobHome bobFs bobClock sampleOps 42)).
Defined.

Lemma saveSession_upsert_witness :
  "conv_1700000000000_k3x9q2a" ∈ conversationId <$> historyOf 42 sampleWorld
  /\ (length (historyOf 42 sampleWorld) <= MAX_HISTORY_PER_CHAT)%nat
  /\ length (historyOf 42 (saveSession bobClock 42 "conv_1700000000000_k3x9q2a"
                             "/tmp/x" "hi" None sampleWorld))
     = length (historyOf 42 sampleWorld).
Proof.
  assert ("conv_1700000000000_k3x9q2a" ∈ conversationId <$> historyOf 42 sampleWorld) as Hin
    by (rewrite sample_history; apply list_elem_of_further, list_elem_of_here).
  assert (length (historyOf 42 sampleWorld) <= MAX_HISTORY_PER_CHAT)%nat as Hlen
    by (rewrite sample_history; vm_compute; lia).
  split; [exact Hin|]. split; [exact Hlen|].
  destruct (proj1 (saveSession_upsert bobClock 42 "conv_1700000000000_k3x9q2a"
                     "/tmp/x" "hi" None sampleWorld) Hin)
    as (i & old & new & _ & _ & _ & _ & _ & _ & _ & _ & _ & _ & Hcap).
  exact (proj2 (Hcap Hlen)).
Defined.

Lemma resolveWorkingDirectory_witness :
  resolveWorkingDirectory bobHome bobFs "/Users/alice/proj" = "/home/bob/proj"
  /\ resolveWorkingDirectory bobHome bobFs "/home/bob/proj" = "/home/bob/proj"
  /\ resolveWorkingDirectory bobHome bobFs "/srv/data" = "/home/bob".
Proof.
  split; [|split].
  - apply (proj1 (proj2 (resolveWorkingDirectory_cases bobHome bobFs "/Users/alice/proj"))
             eq_refl "/Users/" "alice/proj"); [|reflexivity..].
    apply list_elem_of_here.
  - exact (proj1 (resolveWorkingDirectory_cases bobHome bobFs "/home/bob/proj") eq_refl).
  - apply (proj2 (proj2 (resolveWorkingDirectory_cases bobHome bobFs "/srv/data")) eq_refl).
    intros prefix rest Hp. unfold homePrefixes in Hp.
    repeat (apply elem_of_cons in Hp as [->|Hp]); [| |by apply elem_of_nil in Hp];
      intros H; discriminate H.
Defined.

Lemma history_capped_witness :
  (length (historyOf 42 sampleWorld) <= 20)%nat.
Proof. exact (proj1 (history_capped bobHome bobFs bobClock) sampleOps 42). Defined.

Lemma resumeSession_unknown_witness :
  ("nope" ∉ conversationId <$> historyOf 42 sampleWorld)
  /\ resumeSession bobHome bobFs bobClock 42 "nope" sampleWorld = (None, sampleWorld).
Proof.
  assert ("nope" ∉ conversationId <$> historyOf 42 sampleWorld) as Hout.
  { rewrite sample_history. intros H.
    repeat (apply elem_of_cons in H as [H|H]; [discriminate H|]).
    by apply elem_of_nil in H. }
  split; [exact Hout|].
  exact (resumeSession_unknown bobHome bobFs bobClock 42 "nope" sampleWorld Hout).
Defined.

Lemma resumeSession_known_witness :
  "conv_1700000000000_k3x9q2a" ∈ conversationId <$> historyOf 42 sampleWorld
  /\ exists session w',
      resumeSession bobHome bobFs bobClock 42 "conv_1700000000000_k3x9q2a" sampleWorld
      = (Some session, w')
      /\ getSession 42 w' = Some session.
Proof.
  assert ("conv_1700000000000_k3x9q2a" ∈ conversationId <$> historyOf 42 sampleWorld) as Hin
    by (rewrite sample_history; apply list_elem_of_further, list_elem_of_here).
  split; [exact Hin|].
  destruct (resumeSession_known bobHome bobFs bobClock 42 _ sampleWorld Hin)
    as (i & entry & session & w' & _ & _ & _ & Hres & _ & _ & _ & _ & _ & Hget & _).
  exists session, w'. split; [exact Hres|exact Hget].
Defined.

Lemma setWorkingDirectory_witness :
  getSession 42 sampleWorld = Some sampleLive
  /\ workingDirectory (fst (setWorkingDirectory bobHome bobFs bobClock 42
                              "/Users/alice/proj" "" sampleWorld))
     = "/Users/alice/proj".
Proof.
  split; [exact sample_live|].
  destruct (proj1 (setWorkingDirectory_cases bobHome bobFs bobClock 42
                     "/Users/alice/proj" "" sampleWorld) sampleLive sample_live)
    as (session & w' & -> & -> & _).
  reflexivity.
Defined.

Lemma resumeSession_keeps_order_witness :
  historyOf 42 sampleWorld = sampleSecond :: [sampleFirst]
  /\ getLastSession 42
       (snd (resumeSession bobHome bobFs bobClock 42 "conv_1700000000000_k3x9q2a"
               sampleWorld))
     = Some sampleSecond.
Proof.
  split; [exact sample_history|].
  refine (proj1 (proj2 (proj2 (proj2
            (resumeSession_keeps_order bobHome bobFs bobClock 42
               "conv_1700000000000_k3x9q2a" sampleWorld sampleSecond [sampleFirst]
               sample_history _ _ _))))).
  - intros H. discriminate H.
  - apply list_elem_of_here.
  - rewrite sample_history. vm_compute. lia.
Defined.

Lemma live_session_in_history_witness :
  forallb isManagerOp sampleOps = true
  /\ getSession 42 sampleWorld = Some sampleLive
  /\ exists e, e ∈ historyOf 42 sampleWorld
               /\ conversationId e = sConversationId sampleLive.
Proof.
  split; [reflexivity|]. split; [exact sample_live|].
  exact (live_session_in_history bobHome bobFs bobClock sampleOps 42 sampleLive
           eq_refl sample_live).
Defined.

(** ** Reading the history file: what is refused, skipped and overridden *)

(** X1. One entry that fails the schema (a missing or ill-typed field) in
    the list of any chat makes [load] discard the whole file: the history
    starts empty, whatever it held before and whatever else the file has. *)
Theorem load_discards_malformed ms members key items bad current :
  getMember "sessions" ms = Some (JObject members) ->
  (key, JArray items) ∈ members -> bad ∈ items -> parseEntry bad = None ->
  load (Document (JObject ms)) current = ∅.
Proof.
  intros Hs Hm Hb Hp. unfold load, safeParse. rewrite Hs. cbn [mbind option_bind].
  assert (parseRecord (JObject members) = None) as ->; [|done].
  unfold parseRecord. apply mapM_None_2, Exists_exists.
  exists (key, JArray items). split; [done|]. cbn [fst snd parseEntries].
  assert (mapM parseEntry items = None) as ->; [|done].
  apply mapM_None_2, Exists_exists. by exists bad.
Qed.

Lemma loadRecord_app before after :
  loadRecord (before ++ after)
  = foldl (fun acc kv =>
             match JsNumber.parseInt (fst kv) with
             | JsNumber.Finite chatId => <[chatId := snd kv]> acc
             | _ => acc
             end) (loadRecord before) after.
Proof. unfold loadRecord. by rewrite foldl_app. Qed.

Lemma foldl_load_keeps (after : list (string * list SessionHistoryEntry))
    (acc : gmap Z (list SessionHistoryEntry)) c :
  Forall (fun kv => JsNumber.parseInt (fst kv) ≠ JsNumber.Finite c) after ->
  foldl (fun acc kv =>
           match JsNumber.parseInt (fst kv) with
           | JsNumber.Finite chatId => <[chatId := snd kv]> acc
           | _ => acc
           end) acc after !! c = acc !! c.
Proof.
  revert acc. induction after as [|[k l] after IH]; intros acc Hall; [done|].
  inversion Hall as [|? ? Hk Hall']; subst. simpl in *. rewrite (IH _ Hall').
  destruct (JsNumber.parseInt k) as [| |c']; [done..|].
  apply lookup_insert_ne. congruence.
Qed.

(** X2. The loop of [load] over the keys of the file: a key [parseInt]
    cannot read is skipped, the rest being loaded as without it; a chat's
    history is the list under the last key that reads as its id, earlier
    such keys being overridden; and a chat no key reads as has none. *)
Theorem loadRecord_keys :
  (forall before key l after,
      JsNumber.parseInt key = JsNumber.NaN ->
      loadRecord (before ++ (key, l) :: after) = loadRecord (before ++ after))
  /\ (forall before key l after c,
        JsNumber.parseInt key = JsNumber.Finite c ->
        Forall (fun kv => JsNumber.parseInt (fst kv) ≠ JsNumber.Finite c) after ->
        loadRecord (before ++ (key, l) :: after) !! c = Some l)
  /\ (forall record c,
        Forall (fun kv => JsNumber.parseInt (fst kv) ≠ JsNumber.Finite c) record ->
        loadRecord record !! c = None).
Proof.
  split; [|split].
  - intros before key l after Hk. rewrite !loadRecord_app. simpl. by rewrite Hk.
  - intros before key l after c Hk Hall. rewrite loadRecord_app. simpl. rewrite Hk.
    rewrite (foldl_load_keeps _ _ _ Hall). apply lookup_insert_eq.
  - intros record c Hall. unfold loadRecord. by rewrite (foldl_load_keeps _ _ _ Hall).
Qed.

(** ** The other operations of HistoryStore *)

Section StoreOperations.

Variable clock : nat -> Z.

Lemma historyOf_nonempty c w x :
  x ∈ ids (historyOf c w) -> data w !! c = Some (historyOf c w).
Proof.
  unfold historyOf. destruct (data w !! c); [done|]. simpl.
  intros H. by apply elem_of_nil in H.
Qed.

Lemma updateEntry_unknown c conv change w :
  (conv ∉ ids (historyOf c w)) -> updateEntry c conv change w = w.
Proof.
  intros Hout. unfold updateEntry. destruct (data w !! c) as [l|] eqn:El; [|done].
  rewrite (historyOf_Some _ _ _ El) in Hout. apply findIndex_None in Hout.
  by rewrite Hout.
Qed.

Lemma updateEntry_found c conv change w :
  conv ∈ ids (historyOf c w) ->
  exists i old,
    historyOf c w !! i = Some old /\ conversationId old = conv
    /\ (conv ∉ ids (take i (historyOf c w)))
    /\ updateEntry c conv change w
       = save (mkWorld (sessions w)
                 (<[c := <[i := change old]> (historyOf c w)]> (data w))
                 (disk w) (S (tick w))).
Proof.
  intros Hin. pose proof (historyOf_nonempty _ _ _ Hin) as El.
  destruct (findIndex_is_Some _ _ Hin) as [i Hi].
  destruct (findIndex_Some _ _ _ Hi) as (old & Hold & Hc & Hfirst).
  exists i, old. do 3 (split; [done|]).
  unfold updateEntry. rewrite El, Hi. cbn [mbind option_bind]. by rewrite Hold.
Qed.

(** X3. [updateLastMessage] and [updateClaudeSessionId] for a chat without
    history, or for a conversation the chat's list does not have, do nothing
    at all: the history, the live sessions and the file are as before, and
    the clock is not even read. *)
Theorem update_unknown c conv w :
  (conv ∉ conversationId <$> historyOf c w) ->
  (forall preview, updateLastMessage clock c conv preview w = w)
  /\ (forall csid, updateClaudeSessionId clock c conv csid w = w).
Proof.
  intros Hout. split; intros ?; by apply updateEntry_unknown.
Qed.

Lemma length_substring0 n s : (String.length (JsString.substring0 n s) <= n)%nat.
Proof.
  revert s. induction n as [|n IH]; intros [|a s]; simpl; try lia.
  specialize (IH s). lia.
Qed.

(** X4. [updateLastMessage] for a conversation the chat's list has changes
    the first entry of that conversation where it lies: its preview becomes
    the first 100 units of the given text and its activity stamp the clock's
    reading; its other fields, the other entries, the order, the other chats
    and the live sessions stay, and the file is written. *)
Theorem updateLastMessage_known c conv preview w :
  conv ∈ conversationId <$> historyOf c w ->
  exists i old new,
    historyOf c w !! i = Some old /\ conversationId old = conv
    /\ (conv ∉ conversationId <$> take i (historyOf c w))
    /\ new = mkEntry (conversationId old) (claudeSessionId old) (projectPath old)
               (projectName old) (JsString.substring0 100 preview) (createdAt old)
               (JsNumber.toISOString (clock (tick w)))
    /\ (String.length (lastMessagePreview new) <= 100)%nat
    /\ historyOf c (updateLastMessage clock c conv preview w)
       = <[i := new]> (historyOf c w)
    /\ (forall c', c' ≠ c ->
         historyOf c' (updateLastMessage clock c conv preview w) = historyOf c' w)
    /\ sessions (updateLastMessage clock c conv preview w) = sessions w
    /\ disk (updateLastMessage clock c conv preview w)
       = Document (dataToJSON (data (updateLastMessage clock c conv preview w))).
Proof.
  intros Hin. unfold updateLastMessage.
  destruct (updateEntry_found c conv
              (fun e => mkEntry (conversationId e) (claudeSessionId e) (projectPath e)
                          (projectName e) (JsString.substring0 100 preview) (createdAt e)
                          (isoAt clock (tick w))) w Hin)
    as (i & old & Hold & Hc & Hfirst & ->).
  eexists i, old, _. do 3 (split; [done|]). split; [reflexivity|].
  split; [apply length_substring0|]. split; [by rewrite historyOf_insert|].
  split; [|done]. intros c' Hne. unfold historyOf. simpl. by rewrite lookup_insert_ne.
Qed.

(** X5. [updateClaudeSessionId] for a conversation the chat's list has sets
    the assistant session id of the first entry of that conversation and
    its activity stamp, and nothing else: the path, the preview, the
    creation stamp, the other entries and their order, the other chats and
    the live sessions stay, and the file is written. *)
Theorem updateClaudeSessionId_known c conv csid w :
  conv ∈ conversationId <$> historyOf c w ->
  exists i old new,
    historyOf c w !! i = Some old /\ conversationId old = conv
    /\ (conv ∉ conversationId <$> take i (historyOf c w))
    /\ new = mkEntry (conversationId old) (Some csid) (projectPath old)
               (projectName old) (lastMessagePreview old) (createdAt old)
               (JsNumber.toISOString (clock (tick w)))
    /\ historyOf c (updateClaudeSessionId clock c conv csid w)
       = <[i := new]> (historyOf c w)
    /\ getSessionByConversationId c conv (updateClaudeSessionId clock c conv csid w)
       = Some new
    /\ (forall c', c' ≠ c ->
         historyOf c' (updateClaudeSessionId clock c conv csid w) = historyOf c' w)
    /\ sessions (updateClaudeSessionId clock c conv csid w) = sessions w
    /\ disk (updateClaudeSessionId clock c conv csid w)
       = Document (dataToJSON (data (updateClaudeSessionId clock c conv csid w))).
Proof.
  intros Hin. unfold updateClaudeSessionId.
  destruct (findIndex_is_Some _ _ Hin) as [i' Hi'].
  destruct (updateEntry_found c conv
              (fun e => mkEntry (conversationId e) (Some csid) (projectPath e)
                          (projectName e) (lastMessagePreview e) (createdAt e)
                          (isoAt clock (tick w))) w Hin)
    as (i & old & Hold & Hc & Hfirst & ->).
  destruct (findIndex_Some _ _ _ Hi') as (old' & Hold' & _ & _).
  eexists i, old, _. do 3 (split; [done|]). split; [reflexivity|].
  split; [by rewrite historyOf_insert|]. split.
  { assert (i' = i) as ->.
    { destruct (Nat.lt_trichotomy i' i) as [Hlt|[->|Hlt]]; [|done|].
      - exfalso. apply Hfirst. apply list_elem_of_fmap.
        exists old'. split; [by destruct (findIndex_Some _ _ _ Hi') as (e & He & <- & _);
                                 rewrite Hold' in He; inversion He|].
        apply list_elem_of_lookup. exists i'. by rewrite lookup_take_lt.
      - exfalso. destruct (findIndex_Some _ _ _ Hi') as (e & He & Hce & Hn).
        apply Hn. apply list_elem_of_fmap. exists old. split; [done|].
        apply list_elem_of_lookup. exists i. by rewrite lookup_take_lt. }
    eapply getSessionByConversationId_found; rewrite historyOf_insert.
    - rewrite <- Hi'. apply findIndex_ids. by apply ids_insert_same with old.
    - apply list_lookup_insert_eq. by eapply lookup_lt_Some. }
  split; [|done]. intros c' Hne. unfold historyOf. simpl. by rewrite lookup_insert_ne.
Qed.

(** X6. [clearHistory] leaves the chat without history ([getHistory] is
    empty, [getLastSession] and every lookup find nothing) and writes the
    file; the other chats keep theirs and no live session is touched, that
    of the cleared chat included, so that its conversation has no entry to
    resume from any more. *)
Theorem clearHistory_effect c w :
  (forall limit, getHistory c limit (clearHistory c w) = [])
  /\ getLastSession c (clearHistory c w) = None
  /\ (forall conv, getSessionByConversationId c conv (clearHistory c w) = None)
  /\ (forall c', c' ≠ c -> historyOf c' (clearHistory c w) = historyOf c' w)
  /\ sessions (clearHistory c w) = sessions w
  /\ disk (clearHistory c w) = Document (dataToJSON (delete c (data w)))
  /\ (forall home existsSync session,
        getSession c w = Some session ->
        getSession c (clearHistory c w) = Some session
        /\ resumeSession home existsSync clock c (sConversationId session) (clearHistory c w)
           = (None, clearHistory c w)).
Proof.
  assert (historyOf c (clearHistory c w) = []) as Hnil.
  { unfold historyOf. simpl. by rewrite lookup_delete_eq. }
  split; [|split; [|split; [|split; [|split; [|split]]]]].
  - intros limit. unfold getHistory. rewrite Hnil. by destruct limit.
  - unfold getLastSession. simpl. by rewrite lookup_delete_eq.
  - intros conv. unfold getSessionByConversationId. by rewrite Hnil.
  - intros c' Hne. unfold historyOf. simpl. by rewrite lookup_delete_ne.
  - done.
  - done.
  - intros home existsSync session Hs. split; [done|].
    unfold resumeSession, getSessionByConversationId. by rewrite Hnil.
Qed.

End StoreOperations.

(** ** The most recent entry of every chat *)

Lemma foldl_active_lookup (kvs : list (Z * list SessionHistoryEntry))
    (acc : gmap Z SessionHistoryEntry) c :
  Forall (fun kv => plainChatId (fst kv)) kvs -> NoDup kvs.*1 ->
  foldl (fun active kv =>
           match head (snd kv), JsNumber.parseInt (JsNumber.toString (fst kv)) with
           | Some e, JsNumber.Finite chatId => <[chatId := e]> active
           | _, _ => active
           end) acc kvs !! c
  = match (list_to_map kvs : gmap Z (list SessionHistoryEntry)) !! c ≫= head with
    | Some e => Some e
    | None => acc !! c
    end.
Proof.
  revert acc. induction kvs as [|[k l] kvs IH]; intros acc Hok Hnd; [done|].
  inversion Hok as [|? ? [Hnum Hlt] Hok']; subst.
  inversion Hnd as [|? ? Hk Hnd']; subst. simpl in *.
  rewrite (JsNumberFacts.parseInt_toString k Hnum Hlt), (IH _ Hok' Hnd').
  destruct (decide (k = c)) as [->|Hne].
  - rewrite lookup_insert_eq.
    rewrite (not_elem_of_list_to_map_1 _ _ Hk). simpl.
    destruct (head l); [by rewrite lookup_insert_eq|done].
  - rewrite lookup_insert_ne by done.
    destruct (list_to_map kvs !! c ≫= head); [done|].
    destruct (head l); [by rewrite lookup_insert_ne|done].
Qed.

(** X7. For a history whose chat ids are plain, [getAllActiveSessions] maps
    a chat to an entry exactly when [getLastSession] returns that entry for
    the chat: one entry per chat that has history, its most recent one, and
    nothing for the others. *)
Theorem getAllActiveSessions_last w :
  map_Forall (fun chatId _ => plainChatId chatId) (data w) ->
  forall c, getAllActiveSessions w !! c = getLastSession c w.
Proof.
  intros Hok c. unfold getAllActiveSessions, getLastSession.
  rewrite foldl_active_lookup.
  - rewrite list_to_map_to_list, lookup_empty. by destruct (data w !! c ≫= head).
  - by apply plain_keys.
  - apply NoDup_fst_map_to_list.
Qed.

(** ** More invariants of the states the calls build *)

Section MoreInvariants.

Variable home : string.
Variable existsSync : string -> bool.
Variable clock : nat -> Z.

Lemma effect_unchanged c w : effect clock c w w.
Proof. destruct w as [s d f t]. by apply (effect_none clock c (mkWorld s d f t) s t). Qed.

Lemma same_elsewhere_insert c (m : gmap Z Session) x :
  forall c', c' ≠ c -> <[c := x]> m !! c' = m !! c'.
Proof. intros c' Hne. by apply lookup_insert_ne. Qed.

Lemma effect_resumeSession c conv w :
  effect clock c w (snd (resumeSession home existsSync clock c conv w)).
Proof.
  unfold resumeSession. destruct (getSessionByConversationId c conv w).
  - apply effect_saveSession, same_elsewhere_insert.
  - apply effect_unchanged.
Qed.

(** Every call ends in at most one operation of HistoryStore, for its own
    chat, and changes the live session of no other chat. *)
Lemma step_effect w op :
  effect clock (chatOf op) w (step home existsSync clock w op).
Proof.
  destruct op; cbn [step chatOf].
  - destruct w as [s d f t].
    by apply (effect_saveSession clock chatId (mkWorld s d f t) s t).
  - destruct w as [s d f t].
    by apply (effect_updateLastMessage clock chatId (mkWorld s d f t) s t).
  - destruct w as [s d f t].
    by apply (effect_updateClaudeSessionId clock chatId (mkWorld s d f t) s t).
  - apply effect_clearHistory.
  - apply effect_saveSession, same_elsewhere_insert.
  - unfold updateActivity. destruct (sessions w !! chatId); [|apply effect_unchanged].
    destruct messagePreview as [p|]; [destruct (JsString.truthy p)|];
      first [apply effect_updateLastMessage, same_elsewhere_insert
            | apply effect_none, same_elsewhere_insert].
  - unfold setWorkingDirectory.
    destruct (sessions w !! chatId); apply effect_saveSession, same_elsewhere_insert.
  - apply effect_none. intros c' Hne. by apply lookup_delete_ne.
  - apply effect_resumeSession.
  - unfold resumeLastSession. destruct (getLastSession chatId w).
    + apply effect_resumeSession.
    + apply effect_unchanged.
  - unfold setClaudeSessionId. destruct (sessions w !! chatId).
    + apply effect_updateClaudeSessionId, same_elsewhere_insert.
    + apply effect_unchanged.
Qed.

Lemma entriesInv_insert c l w s f t :
  Forall entryOk l -> entriesInv w ->
  entriesInv (save (mkWorld s (<[c := l]> (data w)) f t)).
Proof.
  intros Hl Hw c' l'. simpl. rewrite lookup_insert. case_decide; [by intros [= <-]|].
  apply Hw.
Qed.

Lemma historyOf_entriesInv c w : entriesInv w -> Forall entryOk (historyOf c w).
Proof.
  intros Hw. unfold historyOf. destruct (data w !! c) as [l|] eqn:E; [|constructor].
  exact (Hw _ _ E).
Qed.

Lemma entriesInv_saveSession c conv path preview csid w :
  entriesInv w -> entriesInv (saveSession clock c conv path preview csid w).
Proof.
  intros Hw. pose proof (historyOf_entriesInv c w Hw) as Hl.
  assert (forall e, projectPath e = path ->
                    projectName e = JsString.basename path ->
                    lastMessagePreview e = JsString.substring0 100 preview ->
                    entryOk e) as Hok.
  { intros e Hp Hn Hv. split; [rewrite Hv; apply length_substring0|congruence]. }
  destruct (saveSession_cases clock c conv path preview csid w)
    as [(i & old & _ & _ & _ & ->)|(_ & ->)];
    apply entriesInv_insert; try done; apply Forall_take.
  - apply Forall_insert; [done|]. by apply Hok.
  - constructor; [by apply Hok|done].
Qed.

Lemma entriesInv_updateEntry c conv change w :
  (forall e, entryOk e -> entryOk (change e)) ->
  entriesInv w -> entriesInv (updateEntry c conv change w).
Proof.
  intros Hch Hw. unfold updateEntry.
  destruct (data w !! c) as [l|] eqn:El; [|done].
  destruct (findIndex conv l) as [i|]; simpl; [|done].
  destruct (l !! i) as [e|] eqn:Ee; simpl; [|done].
  apply entriesInv_insert; [|done].
  pose proof (Hw _ _ El) as Hl. apply Forall_insert; [done|].
  apply Hch. rewrite Forall_forall in Hl. apply Hl. by eapply list_elem_of_lookup_2.
Qed.

Lemma entriesInv_effect c w w' : effect clock c w w' -> entriesInv w -> entriesInv w'.
Proof.
  intros He Hw.
  destruct He as [s t _|s t conv path preview csid _|s t conv preview _|s t conv csid _|].
  - done.
  - by apply entriesInv_saveSession.
  - apply entriesInv_updateEntry; [|done]. intros e [_ Hn].
    split; [apply length_substring0|done].
  - by apply entriesInv_updateEntry.
  - intros c' l'. simpl. rewrite lookup_delete. case_decide; [done|]. apply Hw.
Qed.

Lemma find_unique (l : list SessionHistoryEntry) e :
  NoDup (ids l) -> e ∈ l ->
  List.find (fun x => String.eqb (conversationId x) (conversationId e)) l = Some e.
Proof.
  induction l as [|a l IH]; intros Hnd Hin; [by apply elem_of_nil in Hin|].
  rewrite fmap_cons in Hnd. apply NoDup_cons in Hnd as [Ha Hnd]. simpl.
  destruct (String.eqb_spec (conversationId a) (conversationId e)) as [Heq|Hne].
  - apply elem_of_cons in Hin as [->|Hin]; [done|].
    exfalso. apply Ha. rewrite Heq. by apply list_elem_of_fmap_2.
  - apply elem_of_cons in Hin as [->|Hin]; [done|]. by apply IH.
Qed.

(** X8. After any sequence of public calls from the empty store, a chat's
    list has no two entries of one conversation; so a lookup by
    conversation id finds each entry of the list, and no other entry
    shadows it. *)
Theorem conversation_ids_unique ops c :
  NoDup (conversationId <$> historyOf c (run home existsSync clock ops initial))
  /\ forall e, e ∈ historyOf c (run home existsSync clock ops initial) ->
               getSessionByConversationId c (conversationId e)
                 (run home existsSync clock ops initial) = Some e.
Proof.
  destruct (historyOf_wellFormed clock c _ (storeInv_run home existsSync clock ops))
    as (_ & Hnd & _).
  split; [done|]. intros e He. by apply find_unique.
Qed.

(** X9. After any sequence of public calls from the empty store, every
    entry of the history has a preview of at most 100 units and, as project
    name, the last segment of its project path. *)
Theorem entries_well_formed ops c :
  Forall (fun e => (String.length (lastMessagePreview e) <= 100)%nat
                   /\ projectName e = JsString.basename (projectPath e))
    (historyOf c (run home existsSync clock ops initial)).
Proof.
  apply historyOf_entriesInv.
  apply (run_invariant home existsSync clock entriesInv (fun _ => True)).
  - by intros c' l'.
  - intros w op _. apply entriesInv_effect with (chatOf op), step_effect.
  - by apply Forall_true.
Qed.

(** X11. A call for one chat leaves every other chat as it was: its history
    and its live session. *)
Theorem other_chats_untouched w op c' :
  c' ≠ chatOf op ->
  historyOf c' (step home existsSync clock w op) = historyOf c' w
  /\ getSession c' (step home existsSync clock w op) = getSession c' w.
Proof.
  intros Hne. pose proof (step_effect w op) as He. unfold getSession.
  destruct He as [s t Hs|s t conv path preview csid Hs|s t conv preview Hs
                 |s t conv csid Hs|].
  - split; [done|]. by apply Hs.
  - split; [by rewrite saveSession_other|]. simpl. by apply Hs.
  - split.
    + unfold updateLastMessage.
      edestruct (updateEntry_cases (chatOf op) conv) as [->|[l ->]]; [done|].
      unfold historyOf. simpl. by rewrite lookup_insert_ne.
    + unfold updateLastMessage. rewrite updateEntry_sessions. simpl. by apply Hs.
  - split.
    + unfold updateClaudeSessionId.
      edestruct (updateEntry_cases (chatOf op) conv) as [->|[l ->]]; [done|].
      unfold historyOf. simpl. by rewrite lookup_insert_ne.
    + unfold updateClaudeSessionId. rewrite updateEntry_sessions. simpl. by apply Hs.
  - split; [|done]. unfold historyOf. simpl. by rewrite lookup_delete_ne.
Qed.

End MoreInvariants.

(** ** More of SessionManager *)

Lemma find_insert (l : list SessionHistoryEntry) i old new x e :
  l !! i = Some old -> conversationId new = conversationId old ->
  List.find (fun y => String.eqb (conversationId y) x) l = Some e ->
  exists e', List.find (fun y => String.eqb (conversationId y) x) (<[i := new]> l) = Some e'
             /\ (e' = e \/ (e = old /\ e' = new)).
Proof.
  revert i. induction l as [|a l IH]; intros [|i] Hold Hc Hfind; simpl in *; try done.
  - inversion Hold; subst. rewrite Hc.
    destruct (String.eqb (conversationId old) x).
    + inversion Hfind; subst. eauto.
    + eauto.
  - destruct (String.eqb (conversationId a) x); [by eauto|]. by apply IH.
Qed.

Section ManagerMore.

Variable home : string.
Variable existsSync : string -> bool.
Variable clock : nat -> Z.

Local Abbreviation resolve := (resolveWorkingDirectory home existsSync).
Local Abbreviation create := (createSession home existsSync clock).
Local Abbreviation resume := (resumeSession home existsSync clock).

(** The entry a lookup finds after [saveSession], for a list within the
    cap, with all its fields. *)
Lemma saveSession_lookup_entry c conv path preview csid w :
  (length (historyOf c w) <= MAX_HISTORY_PER_CHAT)%nat ->
  exists e,
    getSessionByConversationId c conv (saveSession clock c conv path preview csid w) = Some e
    /\ conversationId e = conv /\ projectPath e = path
    /\ projectName e = JsString.basename path
    /\ lastMessagePreview e = JsString.substring0 100 preview
    /\ (forall old, getSessionByConversationId c conv w = Some old ->
         createdAt e = createdAt old
         /\ claudeSessionId e
            = match csid with Some x => Some x | None => claudeSessionId old end
         /\ length (historyOf c (saveSession clock c conv path preview csid w))
            = length (historyOf c w))
    /\ (getSessionByConversationId c conv w = None ->
        claudeSessionId e = csid
        /\ historyOf c (saveSession clock c conv path preview csid w)
           = take MAX_HISTORY_PER_CHAT (e :: historyOf c w)).
Proof.
  intros Hlen.
  destruct (saveSession_cases clock c conv path preview csid w)
    as [(i & old & Hi & Hold & Hc & ->)|(Hfresh & ->)].
  - pose proof (getSessionByConversationId_found c conv w i old Hi Hold) as Hget.
    exists (replacement clock conv path preview csid old w).
    rewrite historyOf_insert.
    rewrite (take_ge (<[i := _]> _)) by (rewrite length_insert; lia).
    split.
    { eapply getSessionByConversationId_found; rewrite historyOf_insert.
      + rewrite <- Hi. apply findIndex_ids, ids_insert_same with old; done.
      + apply list_lookup_insert_eq. by eapply lookup_lt_Some. }
    do 4 (split; [done|]). split.
    + intros old' Hold'. rewrite Hget in Hold'. inversion Hold'; subst old'.
      split; [done|]. split; [done|]. by rewrite length_insert.
    + intros Hnone. rewrite Hget in Hnone. done.
  - exists (inserted clock conv path preview csid w). rewrite historyOf_insert.
    split.
    { unfold getSessionByConversationId. rewrite historyOf_insert.
      unfold MAX_HISTORY_PER_CHAT. cbn [take List.find inserted conversationId].
      by rewrite String.eqb_refl. }
    do 4 (split; [done|]). split; [|done].
    intros old Hold. rewrite getSessionByConversationId_None in Hold; done.
Qed.

Lemma getSessionByConversationId_in c conv w :
  conv ∈ ids (historyOf c w) ->
  exists i old, findIndex conv (historyOf c w) = Some i
                /\ historyOf c w !! i = Some old
                /\ conversationId old = conv
                /\ getSessionByConversationId c conv w = Some old.
Proof.
  intros Hin. destruct (findIndex_is_Some _ _ Hin) as [i Hi].
  destruct (findIndex_Some _ _ _ Hi) as (old & Hold & Hc & _).
  exists i, old. do 3 (split; [done|]). by eapply getSessionByConversationId_found.
Qed.

(** X12. [createSession] makes the returned session the chat's live one,
    in place of any other: its conversation is the id given, or a generated
    one when none or the empty string is given, it has no assistant session
    id and its directory is the resolved one. For a conversation the chat's
    history does not have, an entry with that directory, no assistant id and
    an empty preview is put in front of the list, all of which stays when
    it had fewer than 20 entries. *)
Theorem createSession_fresh c dir conv rnd w :
  let id := chosenId clock conv rnd w in
  let r := create c dir conv rnd w in
  sConversationId (fst r) = id
  /\ sClaudeSessionId (fst r) = None
  /\ workingDirectory (fst r) = resolve dir
  /\ getSession c (snd r) = Some (fst r)
  /\ create c dir (Some "") rnd w = create c dir None rnd w
  /\ ((id ∉ conversationId <$> historyOf c w) ->
      exists e,
        historyOf c (snd r) = take MAX_HISTORY_PER_CHAT (e :: historyOf c w)
        /\ conversationId e = id /\ projectPath e = resolve dir
        /\ claudeSessionId e = None /\ lastMessagePreview e = ""
        /\ ((length (historyOf c w) < MAX_HISTORY_PER_CHAT)%nat ->
            historyOf c (snd r) = e :: historyOf c w)).
Proof.
  intros id r. subst id r. unfold createSession, chosenId.
  set (chosen := match conv with
                 | Some x => if JsString.truthy x then (x, tick w)
                             else (generateConversationId clock rnd w, S (tick w))
                 | None => (generateConversationId clock rnd w, S (tick w))
                 end).
  assert (fst chosen = match conv with
                       | Some x => if JsString.truthy x then x
                                   else generateConversationId clock rnd w
                       | None => generateConversationId clock rnd w
                       end) as Hid.
  { subst chosen. destruct conv as [x|]; [destruct (JsString.truthy x)|]; done. }
  cbn [fst snd sConversationId sClaudeSessionId workingDirectory].
  rewrite <- Hid. do 3 (split; [done|]).
  split; [unfold getSession; simpl; by rewrite lookup_insert_eq|].
  split; [done|].
  intros Hfresh. apply findIndex_None in Hfresh.
  set (w1 := mkWorld _ _ _ _) in *.
  assert (historyOf c w1 = historyOf c w) as Hh by done.
  rewrite <- Hh in Hfresh. rewrite (saveSession_fresh clock _ _ _ _ _ _ Hfresh).
  rewrite historyOf_insert, Hh.
  eexists. split; [reflexivity|]. do 4 (split; [done|]).
  intros Hlen. apply take_ge. simpl. unfold MAX_HISTORY_PER_CHAT in *. lia.
Qed.

(** X13. [createSession] with the id of a conversation the chat's history
    already has (the list within the cap) does not start that conversation
    anew in the history: the entry keeps its place, its creation stamp and
    its assistant session id, takes the resolved directory and loses its
    preview; the live session, though, has a fresh creation date and no
    assistant session id. *)
Theorem createSession_existing c dir conv rnd w old :
  JsString.truthy conv = true ->
  getSessionByConversationId c conv w = Some old ->
  (length (historyOf c w) <= MAX_HISTORY_PER_CHAT)%nat ->
  let r := create c dir (Some conv) rnd w in
  sConversationId (fst r) = conv
  /\ sClaudeSessionId (fst r) = None
  /\ sCreatedAt (fst r) = DateOfTime (clock (tick w))
  /\ conversationId <$> historyOf c (snd r) = conversationId <$> historyOf c w
  /\ exists e,
      getSessionByConversationId c conv (snd r) = Some e
      /\ createdAt e = createdAt old
      /\ claudeSessionId e = claudeSessionId old
      /\ projectPath e = resolve dir
      /\ lastMessagePreview e = "".
Proof.
  intros Htruthy Hold Hlen r. subst r. unfold createSession. rewrite Htruthy.
  cbn [fst snd sConversationId sClaudeSessionId sCreatedAt].
  do 3 (split; [done|]).
  set (w1 := mkWorld _ _ _ _).
  assert (historyOf c w1 = historyOf c w) as Hh by done.
  assert (getSessionByConversationId c conv w1 = Some old) as Hold1 by done.
  split.
  - apply getSessionByConversationId_elem in Hold as [Hin Hc].
    assert (conv ∈ ids (historyOf c w1)) as Hin1
      by (rewrite Hh, <- Hc; by apply list_elem_of_fmap_2).
    destruct (getSessionByConversationId_in c conv w1 Hin1) as (i & old1 & Hi & Ho & Hc1 & _).
    rewrite (saveSession_found clock _ _ _ _ _ _ _ _ Hi Ho), historyOf_insert.
    rewrite (take_ge (<[i := _]> _)) by (rewrite length_insert, Hh; lia).
    rewrite <- Hh. by apply ids_insert_same with old1.
  - destruct (saveSession_lookup_entry c conv (resolve dir) "" None w1)
      as (e & He & _ & Hp & _ & Hv & Hkeep & _); [by rewrite Hh|].
    destruct (Hkeep old Hold1) as (Hcreated & Hcsid & _).
    exists e. by repeat split.
Qed.

(** X14. [clearSession] removes the live session of the chat and nothing
    else: the other live sessions, the history of every chat (so what
    [getSessionHistory] returns), the file and the clock stay. A
    conversation of the chat's history is resumed afterwards exactly as it
    would have been without the clearing. *)
Theorem clearSession_effect c w :
  getSession c (clearSession c w) = None
  /\ (forall c', c' ≠ c -> getSession c' (clearSession c w) = getSession c' w)
  /\ data (clearSession c w) = data w
  /\ disk (clearSession c w) = disk w
  /\ tick (clearSession c w) = tick w
  /\ (forall c' limit,
        getSessionHistory c' limit (clearSession c w) = getSessionHistory c' limit w)
  /\ (forall conv,
        conv ∈ conversationId <$> historyOf c w ->
        resume c conv (clearSession c w) = resume c conv w).
Proof.
  split; [unfold getSession; simpl; by rewrite lookup_delete_eq|].
  split; [intros c' Hne; unfold getSession; simpl; by rewrite lookup_delete_ne|].
  do 4 (split; [done|]).
  intros conv Hin.
  destruct (getSessionByConversationId_in c conv w Hin) as (i & old & Hi & Ho & _ & _).
  pose proof (resumeSession_found home existsSync clock c conv w i old Hi Ho) as H1.
  pose proof (resumeSession_found home existsSync clock c conv (clearSession c w) i old Hi Ho)
    as H2.
  cbv zeta in H1, H2. rewrite H1, H2. simpl. by rewrite insert_delete_eq.
Qed.

(** X15. [resumeLastSession] on a chat without history returns nothing
    and changes nothing. On a chat with history it resumes the head of the
    list, whatever else the list holds: the session has the head's
    conversation and assistant session id, its creation stamp as date and
    its path resolved, and is the chat's live session afterwards; the head
    of the list is still that conversation. *)
Theorem resumeLastSession_cases c w :
  (historyOf c w = [] ->
   resumeLastSession home existsSync clock c w = (None, w))
  /\ (forall first rest,
        historyOf c w = first :: rest ->
        exists session w',
          resumeLastSession home existsSync clock c w = (Some session, w')
          /\ sConversationId session = conversationId first
          /\ sClaudeSessionId session = claudeSessionId first
          /\ sCreatedAt session = DateOfString (createdAt first)
          /\ workingDirectory session = resolve (projectPath first)
          /\ getSession c w' = Some session
          /\ conversationId <$> head (historyOf c w') = Some (conversationId first)).
Proof.
  split.
  - intros Hnil. unfold resumeLastSession, getLastSession. unfold historyOf in Hnil.
    destruct (data w !! c) as [l|]; [|done]. simpl in Hnil. by subst l.
  - intros first rest Hl.
    assert (getLastSession c w = Some first) as Hlast.
    { unfold getLastSession. unfold historyOf in Hl.
      destruct (data w !! c) as [l|]; simpl in *; [by subst l|done]. }
    assert (findIndex (conversationId first) (historyOf c w) = Some 0%nat) as Hi
      by (rewrite Hl; simpl; by rewrite String.eqb_refl).
    assert (historyOf c w !! 0%nat = Some first) as He by (by rewrite Hl).
    pose proof (resumeSession_found home existsSync clock c _ w 0 first Hi He) as Hres.
    cbv zeta in Hres. unfold resumeLastSession. rewrite Hlast.
    eexists _, _. split; [exact Hres|]. do 4 (split; [done|]).
    split; [unfold getSession; simpl; by rewrite lookup_insert_eq|].
    rewrite historyOf_insert, Hl. done.
Qed.

End ManagerMore.

Section ManagerSync.

Variable home : string.
Variable existsSync : string -> bool.
Variable clock : nat -> Z.

Local Abbreviation resolve := (resolveWorkingDirectory home existsSync).

(** The entry a lookup finds after a change of that conversation's entry. *)
Lemma updateEntry_lookup c conv change w :
  conv ∈ ids (historyOf c w) ->
  (forall e, conversationId (change e) = conversationId e) ->
  exists old,
    getSessionByConversationId c conv w = Some old
    /\ getSessionByConversationId c conv (updateEntry c conv change w) = Some (change old).
Proof.
  intros Hin Hch.
  destruct (getSessionByConversationId_in c conv w Hin) as (i & old & Hi & Ho & Hc & Hget).
  exists old. split; [done|].
  assert (data w !! c = Some (historyOf c w)) as El.
  { unfold historyOf in *. destruct (data w !! c); [done|]. by apply elem_of_nil in Hin. }
  unfold updateEntry. rewrite El, Hi. cbn [mbind option_bind]. rewrite Ho. cbn.
  eapply getSessionByConversationId_found; rewrite historyOf_insert.
  - rewrite <- Hi. by apply findIndex_ids, ids_insert_same with old.
  - apply list_lookup_insert_eq. by eapply lookup_lt_Some.
Qed.

(** X16. [updateActivity] on a chat without live session does nothing.
    With a live session it sets that session's activity date to the clock's
    reading and keeps the rest of it; without a message preview, or with an
    empty one, the history and the file are not touched; with one, the
    entry of the session's conversation (when the history has it) takes its
    first 100 units as preview. *)
Theorem updateActivity_cases c w :
  (getSession c w = None -> forall p, updateActivity clock c p w = w)
  /\ (forall s,
        getSession c w = Some s ->
        let s' := mkSession (sConversationId s) (sClaudeSessionId s) (workingDirectory s)
                    (sCreatedAt s) (DateOfTime (clock (tick w))) in
        (forall p, p = None \/ p = Some "" ->
                   updateActivity clock c p w
                   = mkWorld (<[c := s']> (sessions w)) (data w) (disk w) (S (tick w)))
        /\ (forall text,
              JsString.truthy text = true ->
              getSession c (updateActivity clock c (Some text) w) = Some s'
              /\ (sConversationId s ∈ conversationId <$> historyOf c w ->
                  exists old,
                    getSessionByConversationId c (sConversationId s) w = Some old
                    /\ getSessionByConversationId c (sConversationId s)
                         (updateActivity clock c (Some text) w)
                       = Some (mkEntry (conversationId old) (claudeSessionId old)
                                 (projectPath old) (projectName old)
                                 (JsString.substring0 100 text) (createdAt old)
                                 (JsNumber.toISOString (clock (S (tick w))))))
              /\ ((sConversationId s ∉ conversationId <$> historyOf c w) ->
                  data (updateActivity clock c (Some text) w) = data w))).
Proof.
  unfold getSession, updateActivity. split.
  - by intros ->.
  - intros s Hs. cbv zeta. rewrite Hs. split.
    + by intros p [-> | ->].
    + intros text ->. set (w1 := mkWorld _ _ _ _).
      assert (historyOf c w1 = historyOf c w) as Hh by done.
      split; [|split].
      * unfold updateLastMessage. rewrite updateEntry_sessions. simpl.
        by rewrite lookup_insert_eq.
      * intros Hin. rewrite <- Hh in Hin. unfold updateLastMessage.
        destruct (updateEntry_lookup c (sConversationId s)
                    (fun e => mkEntry (conversationId e) (claudeSessionId e) (projectPath e)
                                (projectName e) (JsString.substring0 100 text) (createdAt e)
                                (isoAt clock (tick w1))) w1 Hin) as (old & Hold & Hnew);
          [done|].
        by exists old.
      * intros Hout. rewrite <- Hh in Hout. unfold updateLastMessage.
        by rewrite updateEntry_unknown.
Qed.

(** X17. [setClaudeSessionId] on a chat without live session does nothing.
    With one, the live session takes the assistant session id and keeps its
    conversation, directory and creation date; when the history has the
    session's conversation, its entry takes the id too, so that the
    conversation, cleared and resumed, comes back with it; when it has not,
    the history stays as it was. *)
Theorem setClaudeSessionId_cases c csid w :
  (getSession c w = None -> setClaudeSessionId clock c csid w = w)
  /\ (forall s,
        getSession c w = Some s ->
        getSession c (setClaudeSessionId clock c csid w)
        = Some (mkSession (sConversationId s) (Some csid) (workingDirectory s)
                  (sCreatedAt s) (DateOfTime (clock (tick w))))
        /\ (sConversationId s ∈ conversationId <$> historyOf c w ->
            (exists e,
                getSessionByConversationId c (sConversationId s)
                  (setClaudeSessionId clock c csid w) = Some e
                /\ claudeSessionId e = Some csid)
            /\ exists r w',
                resumeSession home existsSync clock c (sConversationId s)
                  (clearSession c (setClaudeSessionId clock c csid w)) = (Some r, w')
                /\ sClaudeSessionId r = Some csid)
        /\ ((sConversationId s ∉ conversationId <$> historyOf c w) ->
            data (setClaudeSessionId clock c csid w) = data w)).
Proof.
  unfold getSession, setClaudeSessionId. split; [by intros ->|].
  intros s ->. set (w1 := mkWorld _ _ _ _).
  assert (historyOf c w1 = historyOf c w) as Hh by done.
  split; [|split].
  - unfold updateClaudeSessionId. rewrite updateEntry_sessions. simpl.
    by rewrite lookup_insert_eq.
  - intros Hin. rewrite <- Hh in Hin. unfold updateClaudeSessionId.
    destruct (updateEntry_lookup c (sConversationId s)
                (fun e => mkEntry (conversationId e) (Some csid) (projectPath e)
                            (projectName e) (lastMessagePreview e) (createdAt e)
                            (isoAt clock (tick w1))) w1 Hin) as (old & Hold & Hnew);
      [done|].
    split; [by eexists|].
    set (w2 := updateEntry _ _ _ _) in *.
    assert (getSessionByConversationId c (sConversationId s) (clearSession c w2)
            = getSessionByConversationId c (sConversationId s) w2) as Hclear by done.
    unfold resumeSession. rewrite Hclear, Hnew. by eexists _, _.
  - intros Hout. rewrite <- Hh in Hout. unfold updateClaudeSessionId.
    by rewrite updateEntry_unknown.
Qed.

Lemma lookup_other_chat (c' : Z) x w w' :
  historyOf c' w' = historyOf c' w ->
  getSessionByConversationId c' x w' = getSessionByConversationId c' x w.
Proof. unfold getSessionByConversationId. by intros ->. Qed.

Lemma pathInv_saveSession c conv path preview csid w s' t :
  pathInv w -> (length (historyOf c w) <= MAX_HISTORY_PER_CHAT)%nat ->
  sConversationId s' = conv -> workingDirectory s' = path ->
  pathInv (saveSession clock c conv path preview csid
             (mkWorld (<[c := s']> (sessions w)) (data w) (disk w) t)).
Proof.
  intros Hinv Hlen Hs Hp c0 s0. rewrite saveSession_sessions. simpl.
  rewrite lookup_insert. case_decide as Hcc.
  - intros [= <-]. subst c0. rewrite Hs.
    destruct (saveSession_lookup clock c conv path preview csid
                (mkWorld (<[c := s']> (sessions w)) (data w) (disk w) t) Hlen)
      as (e & He & _ & Hpath).
    exists e. split; [done|congruence].
  - intros H0. destruct (Hinv c0 s0 H0) as (e & He & Hpath). exists e. split; [|done].
    rewrite <- He. apply lookup_other_chat. rewrite saveSession_other by done. done.
Qed.

Lemma lookup_updateEntry_path c conv change w c0 x e :
  (forall y, conversationId (change y) = conversationId y
             /\ projectPath (change y) = projectPath y) ->
  getSessionByConversationId c0 x w = Some e ->
  exists e', getSessionByConversationId c0 x (updateEntry c conv change w) = Some e'
             /\ projectPath e' = projectPath e.
Proof.
  intros Hch Hget. unfold updateEntry.
  destruct (data w !! c) as [l|] eqn:El; [|by eauto].
  destruct (findIndex conv l) as [i|]; simpl; [|by eauto].
  destruct (l !! i) as [old|] eqn:Eo; simpl; [|by eauto].
  unfold getSessionByConversationId, historyOf in *. simpl.
  rewrite lookup_insert. case_decide as Hcc; [|by eauto].
  subst c0. rewrite El in Hget. simpl in *.
  destruct (Hch old) as [Hc Hp].
  destruct (find_insert l i old (change old) x e Eo Hc Hget) as (e' & He' & [->|[-> ->]]);
    eauto.
Qed.

Lemma pathInv_updateEntry c conv change w s s' t :
  pathInv w ->
  (forall y, conversationId (change y) = conversationId y
             /\ projectPath (change y) = projectPath y) ->
  sessions w !! c = Some s ->
  sConversationId s' = sConversationId s -> workingDirectory s' = workingDirectory s ->
  pathInv (updateEntry c conv change
             (mkWorld (<[c := s']> (sessions w)) (data w) (disk w) t)).
Proof.
  intros Hinv Hch Hs Hc Hp c0 s0. rewrite updateEntry_sessions. simpl.
  rewrite lookup_insert. case_decide as Hcc.
  - intros [= <-]. subst c0. rewrite Hc, Hp.
    destruct (Hinv c s Hs) as (e & He & Hpath).
    destruct (lookup_updateEntry_path c conv change
                (mkWorld (<[c := s']> (sessions w)) (data w) (disk w) t)
                c (sConversationId s) e Hch He) as (e' & He' & Hp').
    exists e'. split; [done|congruence].
  - intros H0. destruct (Hinv c0 s0 H0) as (e & He & Hpath).
    destruct (lookup_updateEntry_path c conv change
                (mkWorld (<[c := s']> (sessions w)) (data w) (disk w) t)
                c0 (sConversationId s0) e Hch He) as (e' & He' & Hp').
    exists e'. split; [done|congruence].
Qed.

Lemma pathInv_replace c w s s' t :
  pathInv w -> sessions w !! c = Some s ->
  sConversationId s' = sConversationId s -> workingDirectory s' = workingDirectory s ->
  pathInv (mkWorld (<[c := s']> (sessions w)) (data w) (disk w) t).
Proof.
  intros Hinv Hs Hc Hp c0 s0. simpl. rewrite lookup_insert. case_decide as Hcc.
  - intros [= <-]. subst c0. rewrite Hc, Hp. by apply Hinv.
  - by apply Hinv.
Qed.

Lemma pathInv_resumeSession c conv w :
  storeInv clock w -> pathInv w ->
  pathInv (snd (resumeSession home existsSync clock c conv w)).
Proof.
  intros Hstore Hinv. unfold resumeSession.
  destruct (getSessionByConversationId c conv w) as [e|] eqn:E; [|done].
  cbn [snd]. apply getSessionByConversationId_elem in E as [_ Hc].
  apply pathInv_saveSession; [done| |done|done].
  by destruct (historyOf_wellFormed clock c w Hstore).
Qed.

Lemma pathInv_step w op :
  isManagerOp op = true -> storeInv clock w -> pathInv w ->
  pathInv (step home existsSync clock w op).
Proof.
  intros Hop Hstore Hinv.
  assert (forall c, (length (historyOf c w) <= MAX_HISTORY_PER_CHAT)%nat) as Hlen
    by (intros c; by destruct (historyOf_wellFormed clock c w Hstore)).
  destruct op; try done; cbn [step].
  - unfold createSession. cbn [snd]. by apply pathInv_saveSession.
  - unfold updateActivity. destruct (sessions w !! chatId) as [s|] eqn:Es; [|done].
    destruct messagePreview as [p|]; [destruct (JsString.truthy p)|].
    + by eapply pathInv_updateEntry.
    + by eapply pathInv_replace.
    + by eapply pathInv_replace.
  - unfold setWorkingDirectory. destruct (sessions w !! chatId) as [s|] eqn:Es.
    + cbn [snd]. by apply pathInv_saveSession.
    + unfold createSession. cbn [snd]. by apply pathInv_saveSession.
  - intros c0 s0. unfold clearSession. simpl. rewrite lookup_delete.
    case_decide; [done|]. by apply Hinv.
  - by apply pathInv_resumeSession.
  - unfold resumeLastSession. destruct (getLastSession chatId w); [|done].
    by apply pathInv_resumeSession.
  - unfold setClaudeSessionId. destruct (sessions w !! chatId) as [s|] eqn:Es; [|done].
    by eapply pathInv_updateEntry.
Qed.

(** X18. After any sequence of calls of SessionManager from the empty
    state, the live session of a chat and the history agree on where the
    conversation lives: the entry a lookup of the session's conversation
    finds has the session's working directory as project path. *)
Theorem live_directory_in_history ops c session :
  forallb isManagerOp ops = true ->
  getSession c (run home existsSync clock ops initial) = Some session ->
  exists e,
    getSessionByConversationId c (sConversationId session)
      (run home existsSync clock ops initial) = Some e
    /\ projectPath e = workingDirectory session.
Proof.
  intros Hops Hs.
  assert (storeInv clock (run home existsSync clock ops initial)
          /\ pathInv (run home existsSync clock ops initial)) as [_ Hinv].
  { apply (run_invariant home existsSync clock
             (fun w => storeInv clock w /\ pathInv w) (fun op => isManagerOp op = true)).
    3:{ apply Forall_forall. intros op Hin. rewrite forallb_forall in Hops.
        by apply Hops, list_elem_of_In. }
    - split; [by intros ? ?|by intros ? ?].
    - intros w op Hop [Hstore Hinv]. split.
      + by apply storeInv_step.
      + by apply pathInv_step. }
  by apply Hinv.
Qed.

(** X19. [setWorkingDirectory] on a chat with a live session whose
    conversation is in the history (the list within the cap) rewrites that
    entry where it lies, with the directory as given, its last segment as
    project name and an empty preview: the stored preview of the
    conversation is lost, while the creation stamp stays and the assistant
    session id is the live session's, or the entry's when the session has
    none. The list is the old one with that entry replaced at its place,
    so the conversations keep their positions. *)
Theorem setWorkingDirectory_entry c directory rnd w s old :
  getSession c w = Some s ->
  getSessionByConversationId c (sConversationId s) w = Some old ->
  (length (historyOf c w) <= MAX_HISTORY_PER_CHAT)%nat ->
  exists e,
    getSessionByConversationId c (sConversationId s)
      (snd (setWorkingDirectory home existsSync clock c directory rnd w)) = Some e
    /\ projectPath e = directory
    /\ projectName e = JsString.basename directory
    /\ lastMessagePreview e = ""
    /\ createdAt e = createdAt old
    /\ claudeSessionId e
       = match sClaudeSessionId s with Some x => Some x | None => claudeSessionId old end
    /\ length (historyOf c (snd (setWorkingDirectory home existsSync clock c directory rnd w)))
       = length (historyOf c w)
    /\ conversationId e = sConversationId s
    /\ lastActivity e = isoAt clock (S (tick w))
    /\ exists i,
        findIndex (sConversationId s) (historyOf c w) = Some i
        /\ historyOf c w !! i = Some old
        /\ historyOf c (snd (setWorkingDirectory home existsSync clock c directory rnd w))
           = <[i := e]> (historyOf c w)
        /\ conversationId
             <$> historyOf c (snd (setWorkingDirectory home existsSync clock c directory rnd w))
           = conversationId <$> historyOf c w.
Proof.
  unfold getSession, setWorkingDirectory. intros Hs Hold Hlen. rewrite Hs.
  cbn [snd sConversationId sClaudeSessionId].
  set (w1 := mkWorld _ _ _ _).
  assert (exists i, findIndex (sConversationId s) (historyOf c w) = Some i
                    /\ historyOf c w !! i = Some old) as (i & Hi & Hl).
  { unfold getSessionByConversationId in Hold. rewrite find_findIndex in Hold.
    fold (historyOf c w) in Hold.
    destruct (findIndex _ _) as [i|]; [|done]. by exists i. }
  destruct (findIndex_Some _ _ _ Hi) as (old' & Hl' & Hc & _).
  rewrite Hl in Hl'. injection Hl' as <-.
  assert (historyOf c w1 = historyOf c w) as Hh by done.
  rewrite (saveSession_found clock c (sConversationId s) directory ""
             (sClaudeSessionId s) w1 i old) by (by rewrite Hh).
  rewrite Hh, historyOf_insert.
  rewrite take_ge by (rewrite length_insert; exact Hlen).
  set (e := replacement _ _ _ _ _ _ _).
  assert (ids (<[i := e]> (historyOf c w)) = ids (historyOf c w)) as Hids
    by (by apply ids_insert_same with old).
  exists e. split.
  { eapply getSessionByConversationId_found; rewrite historyOf_insert.
    - rewrite <- Hi. by apply findIndex_ids.
    - apply list_lookup_insert_eq. by eapply lookup_lt_Some. }
  do 5 (split; [done|]). split; [by rewrite length_insert|].
  split; [done|]. split; [done|].
  exists i. by repeat split.
Qed.

End ManagerSync.

(** ** More of PathResolver *)

Section PathResolverMore.

Variable home : string.
Variable existsSync : string -> bool.

Local Abbreviation resolve := (resolveWorkingDirectory home existsSync).

Lemma startsWith_refl p : JsString.startsWith p p = true.
Proof.
  rewrite <- (JsStringFacts.app_empty_r p) at 2. apply JsStringFacts.startsWith_app.
Qed.

Lemma remap_under_home prefix p : JsString.startsWith home (remap home prefix p) = true.
Proof.
  unfold remap. destruct (JsString.indexOf JsString.slash _).
  - apply JsStringFacts.startsWith_app.
  - apply startsWith_refl.
Qed.

Lemma append_assoc (a b c : string) : (a +:+ b) +:+ c = a +:+ (b +:+ c).
Proof. induction a as [|x a IH]; [done|]. rewrite !JsStringFacts.app_cons. by f_equal. Qed.

(** [s.slice(n)] is the end of [s]. *)
Lemma slice_suffix n s : exists front, s = front +:+ JsString.slice n s.
Proof.
  revert s. induction n as [|n IH]; intros s.
  - by exists EmptyString.
  - destruct s as [|x s]; [by exists EmptyString|].
    destruct (IH s) as [front Hf]. exists (String x front).
    rewrite JsStringFacts.app_cons. simpl. by f_equal.
Qed.

(** The candidate is the home directory followed by the end of the stored
    path, unit for unit. *)
Lemma remap_tail prefix p :
  exists front tail, p = front +:+ tail /\ remap home prefix p = home +:+ tail.
Proof.
  unfold remap. destruct (slice_suffix (String.length prefix) p) as [f1 H1].
  destruct (JsString.indexOf JsString.slash _) as [i|].
  - destruct (slice_suffix i (JsString.slice (String.length prefix) p)) as [f2 H2].
    exists (f1 +:+ f2), (JsString.slice i (JsString.slice (String.length prefix) p)).
    split; [|done]. by rewrite append_assoc, <- H2.
  - exists p, EmptyString. by rewrite !JsStringFacts.app_empty_r.
Qed.

Lemma tryPrefixes_Some prefixes p r :
  tryPrefixes home existsSync prefixes p = Some r ->
  existsSync r = true /\ JsString.startsWith home r = true
  /\ exists front tail, p = front +:+ tail /\ r = home +:+ tail.
Proof.
  induction prefixes as [|prefix others IH]; simpl; [done|].
  destruct (JsString.startsWith prefix p); [|done].
  destruct (existsSync (remap home prefix p)) eqn:E; [|done].
  intros [= <-]. split; [done|]. split; [apply remap_under_home|apply remap_tail].
Qed.

(** X20. What [resolveWorkingDirectory] returns is the stored path, which
    then exists, or else a path that exists and is the current home
    directory followed by the end of the stored path, copied unit for unit,
    or else the home directory itself. The result of a stored path that
    does not exist so begins with the home directory as a string; the
    segments copied from the stored path are not looked at, a [..] among
    them included. *)
Theorem resolveWorkingDirectory_lands p :
  (existsSync p = true /\ resolveWorkingDirectory home existsSync p = p)
  \/ (existsSync p = false /\ existsSync (resolve p) = true
      /\ JsString.startsWith home (resolve p) = true
      /\ exists front tail, p = front +:+ tail /\ resolve p = home +:+ tail)
  \/ (existsSync p = false /\ resolve p = home).
Proof.
  unfold resolveWorkingDirectory. destruct (existsSync p) eqn:Ep; [by left|right].
  destruct (tryPrefixes home existsSync homePrefixes p) as [r|] eqn:Er.
  - left. destruct (tryPrefixes_Some _ _ _ Er) as (? & ? & ?). by repeat split.
  - by right.
Qed.

(** X21. When the home directory exists, the path
    [resolveWorkingDirectory] returns exists, and resolving it again gives
    it back: a path written back to the history after a resume resolves to
    itself from then on, as long as the file system stays. *)
Theorem resolveWorkingDirectory_settles p :
  existsSync home = true ->
  existsSync (resolveWorkingDirectory home existsSync p) = true
  /\ resolveWorkingDirectory home existsSync
       (resolveWorkingDirectory home existsSync p)
     = resolveWorkingDirectory home existsSync p.
Proof.
  intros Hhome.
  assert (existsSync (resolve p) = true) as Hex.
  { unfold resolveWorkingDirectory. destruct (existsSync p) eqn:Ep; [done|].
    destruct (tryPrefixes home existsSync homePrefixes p) as [r|] eqn:Er; [|done].
    by destruct (tryPrefixes_Some _ _ _ Er) as [? _]. }
  split; [done|]. unfold resolveWorkingDirectory at 1. by rewrite Hex.
Qed.

End PathResolverMore.

(** ** Telegraph settings *)

Module TelegraphFacts.
Import Telegraph.

Section SettingsFacts.

Variable TELEGRAPH_ENABLED : bool.

Local Abbreviation get := (getTelegraphSettings TELEGRAPH_ENABLED).
Local Abbreviation set := (setTelegraphEnabled TELEGRAPH_ENABLED).
Local Abbreviation isEnabled := (isTelegraphEnabled TELEGRAPH_ENABLED).

Lemma get_valid chatId key st :
  validateChatId chatId = Some key ->
  get chatId st
  = match chatTelegraphSettings st !! key with
    | Some existing => (Some existing, st)
    | None =>
        (Some (mkSettings TELEGRAPH_ENABLED),
         saveSettings (mkState (<[key := mkSettings TELEGRAPH_ENABLED]>
                                  (chatTelegraphSettings st)) (file st)))
    end.
Proof. intros Hv. unfold getTelegraphSettings. by rewrite Hv. Qed.

Lemma set_valid chatId key value st :
  validateChatId chatId = Some key ->
  set chatId value st
  = (true,
     saveSettings (mkState (<[key := mkSettings value]>
                              (chatTelegraphSettings (snd (get chatId st))))
                     (file (snd (get chatId st))))).
Proof.
  intros Hv. unfold setTelegraphEnabled. rewrite Hv, (get_valid _ _ _ Hv).
  by destruct (chatTelegraphSettings st !! key).
Qed.

(** X22. [validateChatId] lets pass the positive integers and nothing
    else: not a number, an infinity, zero, a negative number and a number
    with a fractional part all make it throw; and when it throws, reading,
    setting and testing the settings of a chat fail with the state as it
    was. *)
Theorem validateChatId_spec :
  validateChatId NotANumber = None
  /\ (forall negative, validateChatId (Infinity negative) = None)
  /\ (forall n d key,
        validateChatId (Fraction n d) = Some key
        <-> 0 < n /\ n mod Z.pos d = 0 /\ key = n / Z.pos d)
  /\ (forall chatId st,
        validateChatId chatId = None ->
        get chatId st = (None, st)
        /\ (forall value, set chatId value st = (false, st))
        /\ isEnabled chatId st = (None, st)).
Proof.
  split; [done|]. split; [done|]. split.
  - intros n d key. unfold validateChatId.
    destruct (Z.leb_spec n 0); simpl.
    + split; [done|]. lia.
    + destruct (Z.eqb_spec (n mod Z.pos d) 0) as [Hz|Hnz]; simpl.
      * split; [intros [= <-]; done|]. by intros (_ & _ & ->).
      * split; [done|]. lia.
  - intros chatId st Hv.
    unfold isTelegraphEnabled, setTelegraphEnabled, getTelegraphSettings.
    by rewrite Hv.
Qed.

(** X23. For a valid chat id, [setTelegraphEnabled] stores the flag, so
    that [isTelegraphEnabled] returns it afterwards without changing the
    state again; the settings of the other chats stay, and the file is
    written with the map as it then is. *)
Theorem setTelegraphEnabled_read_back chatId key value st :
  validateChatId chatId = Some key ->
  fst (set chatId value st) = true
  /\ isEnabled chatId (snd (set chatId value st))
     = (Some value, snd (set chatId value st))
  /\ (forall key', key' ≠ key ->
        chatTelegraphSettings (snd (set chatId value st)) !! key'
        = chatTelegraphSettings st !! key')
  /\ file (snd (set chatId value st))
     = Document (settingsToJSON (chatTelegraphSettings (snd (set chatId value st)))).
Proof.
  intros Hv. rewrite (set_valid _ _ _ _ Hv). cbn [fst snd].
  split; [done|]. split.
  { unfold isTelegraphEnabled. rewrite (get_valid _ _ _ Hv). simpl.
    by rewrite lookup_insert_eq. }
  split; [|done].
  intros key' Hne. simpl. rewrite lookup_insert_ne by done.
  rewrite (get_valid _ _ _ Hv).
  destruct (chatTelegraphSettings st !! key); simpl; [done|].
  by rewrite lookup_insert_ne.
Qed.

(** X24. For a valid chat id, [getTelegraphSettings] of a chat the map
    does not have returns the configured default, stores it for the chat
    and writes the file; of a chat the map has, it returns what is stored
    and changes nothing. So a second read returns what the first did and
    leaves the state the first left. *)
Theorem getTelegraphSettings_default chatId key st :
  validateChatId chatId = Some key ->
  (chatTelegraphSettings st !! key = None ->
   get chatId st
   = (Some (mkSettings TELEGRAPH_ENABLED),
      mkState (<[key := mkSettings TELEGRAPH_ENABLED]> (chatTelegraphSettings st))
        (Document (settingsToJSON
                     (<[key := mkSettings TELEGRAPH_ENABLED]> (chatTelegraphSettings st))))))
  /\ (forall stored,
        chatTelegraphSettings st !! key = Some stored ->
        get chatId st = (Some stored, st))
  /\ get chatId (snd (get chatId st)) = (fst (get chatId st), snd (get chatId st)).
Proof.
  intros Hv. rewrite !(get_valid _ _ _ Hv).
  split; [by intros ->|]. split; [by intros stored ->|].
  destruct (chatTelegraphSettings st !! key) as [existing|] eqn:E; simpl.
  - by rewrite E.
  - by rewrite lookup_insert_eq.
Qed.

End SettingsFacts.

End TelegraphFacts.

(** ** The further properties on the sample run *)

Lemma sample_unknown : "nope" ∉ conversationId <$> historyOf 42 sampleWorld.
Proof.
  rewrite sample_history. intros H.
  repeat (apply elem_of_cons in H as [H|H]; [discriminate H|]).
  by apply elem_of_nil in H.
Qed.

Lemma sample_known : "second" ∈ conversationId <$> historyOf 42 sampleWorld.
Proof. rewrite sample_history. apply list_elem_of_here. Qed.

Lemma sample_lookup_second :
  getSessionByConversationId 42 "second" sampleWorld = Some sampleSecond.
Proof. vm_compute. reflexivity. Qed.

Lemma sample_length : (length (historyOf 42 sampleWorld) <= MAX_HISTORY_PER_CHAT)%nat.
Proof. rewrite sample_history. vm_compute. lia. Qed.

Lemma load_discards_malformed_witness :
  load (Document
          (JObject
             [("sessions",
               JObject
                 [("42", JArray [entryToJSON sampleFirst]);
                  ("7", JArray [entryToJSON sampleSecond;
                                JObject [("conversationId", JString "x")]])])]))
    (data sampleWorld)
  = ∅.
Proof.
  eapply load_discards_malformed
    with (key := "7") (bad := JObject [("conversationId", JString "x")]).
  - reflexivity.
  - apply list_elem_of_further, list_elem_of_here.
  - apply list_elem_of_further, list_elem_of_here.
  - reflexivity.
Defined.

Lemma loadRecord_keys_witness :
  loadRecord [("7", [sampleFirst]); ("chat", [sampleSecond]); ("07", [sampleSecond])] !! 7
  = Some [sampleSecond].
Proof.
  apply (proj1 (proj2 loadRecord_keys) [("7", [sampleFirst]); ("chat", [sampleSecond])]
           "07" [sampleSecond] [] 7); [reflexivity|constructor].
Defined.

Lemma update_unknown_witness :
  updateLastMessage bobClock 42 "nope" "hi" sampleWorld = sampleWorld
  /\ updateClaudeSessionId bobClock 42 "nope" "sess-9" sampleWorld = sampleWorld.
Proof.
  split.
  - exact (proj1 (update_unknown bobClock 42 "nope" sampleWorld sample_unknown) "hi").
  - exact (proj2 (update_unknown bobClock 42 "nope" sampleWorld sample_unknown) "sess-9").
Defined.

Lemma updateLastMessage_known_witness :
  sessions (updateLastMessage bobClock 42 "second" "hello again" sampleWorld)
  = sessions sampleWorld.
Proof.
  destruct (updateLastMessage_known bobClock 42 "second" "hello again" sampleWorld
              sample_known) as (i & old & new & _ & _ & _ & _ & _ & _ & _ & Hs & _).
  exact Hs.
Defined.

Lemma updateClaudeSessionId_known_witness :
  exists e,
    getSessionByConversationId 42 "second"
      (updateClaudeSessionId bobClock 42 "second" "sess-2" sampleWorld) = Some e
    /\ claudeSessionId e = Some "sess-2".
Proof.
  destruct (updateClaudeSessionId_known bobClock 42 "second" "sess-2" sampleWorld
              sample_known) as (i & old & new & _ & _ & _ & -> & _ & Hget & _).
  eexists. split; [exact Hget|reflexivity].
Defined.

Lemma sample_plain_keys :
  map_Forall (fun chatId _ => plainChatId chatId) (data sampleWorld).
Proof. exact (proj1 (run_plain_synced bobHome bobFs bobClock sampleOps sample_plain)). Qed.

Lemma getAllActiveSessions_last_witness :
  getAllActiveSessions sampleWorld !! 42 = getLastSession 42 sampleWorld.
Proof. exact (getAllActiveSessions_last sampleWorld sample_plain_keys 42). Defined.

Lemma other_chats_untouched_witness :
  historyOf 42 (step bobHome bobFs bobClock sampleWorld (CallClearHistory 7))
  = historyOf 42 sampleWorld
  /\ getSession 42 (step bobHome bobFs bobClock sampleWorld (CallClearHistory 7))
     = getSession 42 sampleWorld.
Proof.
  apply (other_chats_untouched bobHome bobFs bobClock sampleWorld (CallClearHistory 7) 42).
  simpl. intros H. discriminate H.
Defined.

Lemma createSession_existing_witness :
  sClaudeSessionId (fst (createSession bobHome bobFs bobClock 42 "/srv" (Some "second")
                           "" sampleWorld)) = None
  /\ exists e,
      getSessionByConversationId 42 "second"
        (snd (createSession bobHome bobFs bobClock 42 "/srv" (Some "second") ""
                sampleWorld)) = Some e
      /\ claudeSessionId e = Some "sess-1".
Proof.
  destruct (createSession_existing bobHome bobFs bobClock 42 "/srv" "second" ""
              sampleWorld sampleSecond eq_refl sample_lookup_second sample_length)
    as (_ & Hlive & _ & _ & e & He & _ & Hcsid & _).
  split; [exact Hlive|]. exists e. split; [exact He|exact Hcsid].
Defined.

Lemma live_directory_in_history_witness :
  exists e,
    getSessionByConversationId 42 (sConversationId sampleLive) sampleWorld = Some e
    /\ projectPath e = workingDirectory sampleLive.
Proof.
  exact (live_directory_in_history bobHome bobFs bobClock sampleOps 42 sampleLive
           eq_refl sample_live).
Defined.

Lemma setWorkingDirectory_entry_witness :
  exists e,
    getSessionByConversationId 42 "second"
      (snd (setWorkingDirectory bobHome bobFs bobClock 42 "/srv/www" "" sampleWorld))
    = Some e
    /\ projectPath e = "/srv/www" /\ lastMessagePreview e = "".
Proof.
  destruct (setWorkingDirectory_entry bobHome bobFs bobClock 42 "/srv/www" ""
              sampleWorld sampleLive sampleSecond sample_live sample_lookup_second
              sample_length) as (e & He & Hp & _ & Hv & _).
  exists e. split; [exact He|]. split; [exact Hp|exact Hv].
Defined.

(** A [..] in the stored path is carried over: the result begins with the
    home directory as a string and names a directory that is not under
    it. *)
Example resolveWorkingDirectory_dotdot :
  resolveWorkingDirectory bobHome (fun p => String.eqb p "/home/bob/../../etc")
    "/Users/alice/../../etc"
  = "/home/bob/../../etc".
Proof. reflexivity. Qed.

Lemma resolveWorkingDirectory_settles_witness :
  bobFs (resolveWorkingDirectory bobHome bobFs "/Users/alice/proj") = true
  /\ resolveWorkingDirectory bobHome bobFs
       (resolveWorkingDirectory bobHome bobFs "/Users/alice/proj")
     = resolveWorkingDirectory bobHome bobFs "/Users/alice/proj".
Proof.
  exact (resolveWorkingDirectory_settles bobHome bobFs "/Users/alice/proj" eq_refl).
Defined.

Lemma setTelegraphEnabled_read_back_witness :
  Telegraph.isTelegraphEnabled true (Telegraph.Fraction 42 1)
    (snd (Telegraph.setTelegraphEnabled true (Telegraph.Fraction 42 1) false
            (Telegraph.mkState ∅ Missing)))
  = (Some false,
     snd (Telegraph.setTelegraphEnabled true (Telegraph.Fraction 42 1) false
            (Telegraph.mkState ∅ Missing))).
Proof.
  exact (proj1 (proj2 (TelegraphFacts.setTelegraphEnabled_read_back true
                         (Telegraph.Fraction 42 1) 42 false
                         (Telegraph.mkState ∅ Missing) eq_refl))).
Defined.

Lemma getTelegraphSettings_default_witness :
  fst (Telegraph.getTelegraphSettings true (Telegraph.Fraction 42 1)
         (Telegraph.mkState ∅ Missing))
  = Some (Telegraph.mkSettings true).
Proof.
  rewrite (proj1 (TelegraphFacts.getTelegraphSettings_default true
                    (Telegraph.Fraction 42 1) 42 (Telegraph.mkState ∅ Missing) eq_refl)
             (lookup_empty 42)).
  reflexivity.
Defined.
